(** * hashivault_vars: precedence resolution of Vault secrets for Ansible

    A shallow embedding of [playbook/vars_plugins/hashivault_vars.py] and the
    properties of its lookup order, connection defaults, cache and merge. *)

From Stdlib Require Import Ascii String.
From stdpp Require Import base option list strings pretty gmap fin_maps.

Local Open Scope Z_scope.

(** ** Python values and strings *)

(** The scalar values an Ansible variable or a Vault secret field holds.
    Containers nested inside a variable are never inspected by the plugin. *)
Inductive value :=
  | VNone
  | VBool (b : bool)
  | VInt (z : Z)
  | VStr (s : string).

(** A Python [dict] with string keys. *)
Abbreviation dict := (gmap string value).

Definition num_of (v : value) : option Z :=
  match v with
  | VBool b => Some (if b then 1 else 0)
  | VInt z => Some z
  | _ => None
  end.

(** Python's [==] on these values ([True == 1], and [None] equals only
    itself). *)
Definition py_eq (a b : value) : bool :=
  match a, b with
  | VNone, VNone => true
  | VStr s, VStr t => String.eqb s t
  | _, _ =>
      match num_of a, num_of b with
      | Some x, Some y => x =? y
      | _, _ => false
      end
  end.

(** ["%s" % v]. *)
Definition py_str (v : value) : string :=
  match v with
  | VNone => "None"
  | VBool b => if b then "True" else "False"
  | VInt z => pretty z
  | VStr s => s
  end.

(** [s.split(sep)] for a one-character separator: the first part and the
    parts after it. *)
Fixpoint split_aux (sep : ascii) (s : string) : string * list string :=
  match s with
  | EmptyString => (EmptyString, [])
  | String c s' =>
      let '(p, ps) := split_aux sep s' in
      if Ascii.eqb c sep then (EmptyString, p :: ps) else (String c p, ps)
  end.

Definition str_split (sep : ascii) (s : string) : list string :=
  let '(p, ps) := split_aux sep s in p :: ps.

(** [s.count(c)] for a one-character needle. *)
Fixpoint str_count (c : ascii) (s : string) : nat :=
  match s with
  | EmptyString => O
  | String c' s' => ((if Ascii.eqb c' c then 1 else 0) + str_count c s')%nat
  end.

(** ** The collaborators: [socket], the Vault client, Ansible entities *)

Inductive address_family := AF_INET | AF_INET6.

(** The part of Python's [socket] module the plugin calls. [inet_pton] is
    missing on some platforms (the attribute lookup then raises
    [AttributeError]); a call answers [true] when it returns a packed address
    and [false] when it raises [socket.error]. *)
Record socket_module := SocketModule {
  inet_pton : option (address_family → string → bool);
  inet_aton : string → bool
}.

(** Dict objects are passed by reference: a location of the heap below. *)
Abbreviation loc := positive.

(** An Ansible [Group], a [Host] with its [vars] dict, or an object of any
    other type. *)
Inductive entity :=
  | Group (name : string)
  | Host (name : string) (vars : loc)
  | Other (type_name : string).

(** What [get_vars] receives as [entities]: a list, or anything else. *)
Inductive entities_arg :=
  | EntityList (es : list entity)
  | NotAList (e : entity).

Inductive error_obj :=
  | ObjInt (n : nat)
  | ObjType (type_name : string).

Inductive exn :=
  | AttributeError (attr : string)
  | KeyError (key : string)
  | AnsibleInternalError (message : string) (obj : error_obj).

(** ** Program state *)

(** The accumulator and the [vars] of the hosts are dict objects of the heap.
    [vault_cache] is the module-level cache; the records Vault answers are
    read and copied but never written, and are held by value. The two logs are
    ghost state: the paths handed to [v_client.read] and the arguments of every
    [_read_vault] call. *)
Record state := State {
  heap : gmap loc dict;
  vault_cache : gmap string dict;
  store_reads : list string;
  lookups : list (string * string)
}.

Definition set_heap (h : gmap loc dict) (st : state) : state :=
  State h (vault_cache st) (store_reads st) (lookups st).

(** The contents of the dict at [l]. The program is only ever handed live
    locations; a location outside the heap reads as the empty dict. *)
Definition deref (st : state) (l : loc) : dict := default ∅ (heap st !! l).

Inductive result (A : Type) :=
  | Ok (a : A)
  | Raise (e : exn).
Arguments Ok {A} a.
Arguments Raise {A} e.

Definition M (A : Type) : Type := state → result A * state.

Global Instance M_ret : MRet M := λ A a st, (Ok a, st).
Global Instance M_bind : MBind M := λ A B f m st,
  match m st with
  | (Ok a, st') => f a st'
  | (Raise e, st') => (Raise e, st')
  end.

Definition raise {A} (e : exn) : M A := λ st, (Raise e, st).

(** A computation that does not touch the state. *)
Definition lift {A} (r : result A) : M A := λ st, (r, st).

(** [{}] *)
Definition dict_new : M loc := λ st,
  let l := fresh (dom (heap st)) in
  (Ok l, set_heap (<[l := ∅]> (heap st)) st).

(** [d.get(k)] *)
Definition dict_get (d : loc) (k : string) : M value := λ st,
  (Ok (default VNone (deref st d !! k)), st).

(** [d[k]] *)
Definition dict_getitem (d : loc) (k : string) : M value := λ st,
  match deref st d !! k with
  | Some v => (Ok v, st)
  | None => (Raise (KeyError k), st)
  end.

(** [d[k] = v] *)
Definition dict_setitem (d : loc) (k : string) (v : value) : M unit := λ st,
  (Ok (), set_heap (<[d := <[k := v]> (deref st d)]> (heap st)) st).

(** Modelled from the spec: [ansible.utils.vars.combine_vars] is imported from
    Ansible and is not part of this repository. It is the overlay merge of the
    specification (Ansible's default [replace] hash behaviour): a new dict that
    holds [b]'s entries over [a]'s; neither argument is written. *)
Definition combine_vars (a : loc) (b : dict) : M loc := λ st,
  let l := fresh (dom (heap st)) in
  (Ok l, set_heap (<[l := b ∪ deref st a]> (heap st)) st).

(** ** A concrete environment for the examples *)

Definition is_digit (c : ascii) : bool :=
  (48 <=? nat_of_ascii c)%nat && (nat_of_ascii c <=? 57)%nat.

Definition is_hex_digit (c : ascii) : bool :=
  let n := nat_of_ascii c in
  is_digit c || ((65 <=? n)%nat && (n <=? 70)%nat)
             || ((97 <=? n)%nat && (n <=? 102)%nat).

Fixpoint str_forallb (p : ascii → bool) (s : string) : bool :=
  match s with
  | EmptyString => true
  | String c s' => p c && str_forallb p s'
  end.

Fixpoint decimal_value (acc : N) (s : string) : N :=
  match s with
  | EmptyString => acc
  | String c s' => decimal_value (10 * acc + (N_of_ascii c - 48))%N s'
  end.

(** One field of a dotted quad: 0 to 255 in decimal, no leading zero. *)
Definition decimal_octet (s : string) : bool :=
  match s with
  | EmptyString => false
  | String c s' =>
      str_forallb is_digit s
      && (String.length s <=? 3)%nat
      && (negb (Ascii.eqb c "0") || String.eqb s' "")
      && (decimal_value 0 s <=? 255)%N
  end.

Definition dotted_quad (s : string) : bool :=
  let fields := str_split "." s in
  (length fields =? 4)%nat && forallb decimal_octet fields.

Definition hex_group (s : string) : bool :=
  (1 <=? String.length s)%nat && (String.length s <=? 4)%nat
  && str_forallb is_hex_digit s.

(** The text before and after the first ["::"]. *)
Fixpoint cut_double_colon (s : string) : option (string * string) :=
  match s with
  | EmptyString => None
  | String c s' =>
      match s' with
      | String c' s'' =>
          if Ascii.eqb c ":" && Ascii.eqb c' ":" then Some (EmptyString, s'')
          else match cut_double_colon s' with
               | Some (a, b) => Some (String c a, b)
               | None => None
               end
      | EmptyString => None
      end
  end.

(** The number of 16-bit groups a colon-separated run denotes; its last field
    may be a dotted quad where [v4] allows it. *)
Definition groups_of (v4 : bool) (s : string) : option nat :=
  if String.eqb s "" then Some O
  else
    let fields := str_split ":" s in
    match rev fields with
    | [] => Some O
    | last :: front =>
        if forallb hex_group front then
          if hex_group last then Some (length fields)
          else if v4 && dotted_quad last then Some (S (length fields))
          else None
        else None
    end.

Definition colon_hex (s : string) : bool :=
  match cut_double_colon s with
  | None =>
      match groups_of true s with
      | Some n => (n =? 8)%nat
      | None => false
      end
  | Some (l, r) =>
      match cut_double_colon r, groups_of false l, groups_of true r with
      | None, Some a, Some b => (a + b <=? 7)%nat
      | _, _, _ => false
      end
  end.

(** A [socket] module with [inet_pton], accepting the textual address forms of
    POSIX: dotted-decimal quads for [AF_INET], colon-hexadecimal for
    [AF_INET6]. *)
Definition reference_socket : socket_module :=
  SocketModule
    (Some (λ af address,
       match af with
       | AF_INET => dotted_quad address
       | AF_INET6 => colon_hex address
       end))
    dotted_quad.

(** The Vault contents of the end-to-end example of the specification. *)
Definition example_vault (path : string) : option dict :=
  if String.eqb path "secret/ansible/groups/all"
  then Some {[ "x" := VInt 1 ]}
  else if String.eqb path "secret/ansible/groups/webservers"
  then Some (<[ "x" := VInt 2 ]> {[ "y" := VInt 1 ]})
  else if String.eqb path "secret/ansible/ssh/hosts/hosta.example.com"
  then Some {[ "x" := VInt 3 ]}
  else None.

(** A Vault whose record for the domain "com" sets the connection type. *)
Definition redirecting_vault (path : string) : option dict :=
  if String.eqb path "secret/ansible/ssh/domains/com"
  then Some {[ "ansible_connection" := VStr "winrm" ]}
  else None.

(** A fresh process: the empty [vars] of a host at location 1, an empty
    accumulator at location 2, the [vars] of a host that sets the WinRM port
    at location 3; an empty cache and empty logs. *)
Definition initial_state : state :=
  State {[ 1%positive := ∅; 2%positive := ∅;
           3%positive := {[ "ansible_port" := VInt 5986 ]} ]} ∅ [] [].

(** ** Host names and lookup keys *)

(** The domain suffixes of a host name, widest first: the text after each
    ['.'], the text after the last ['.'] first. *)
Fixpoint domain_suffixes (name : string) : list string :=
  match name with
  | EmptyString => []
  | String c name' =>
      if Ascii.eqb c "."
      then domain_suffixes name' ++ [name']
      else domain_suffixes name'
  end.

(** The lookup sequence of a host name under a connection type. *)
Definition lookup_keys (connection name : string) : list (string * string) :=
  if (str_count "." name =? 0)%nat
  then [(connection +:+ "/hosts", name)]
  else map (λ suffix, (connection +:+ "/domains", suffix))
           (domain_suffixes name)
       ++ [(connection +:+ "/hosts", name)].

(** [".".join(parts)] *)
Fixpoint join_dot (parts : list string) : string :=
  match parts with
  | [] => ""
  | [p] => p
  | p :: ps => p +:+ "." +:+ join_dot ps
  end.

(** The value of [prev_part] once the parts [seen] have been visited. *)
Definition prev_of (seen : list string) : string :=
  match seen with
  | [] => ""
  | _ => "." +:+ join_dot seen
  end.

(** The values [lookup_part] takes while the loop visits [todo], the parts
    [seen] being visited already. *)
Fixpoint emitted (todo seen : list string) : list string :=
  match todo with
  | [] => []
  | part :: todo => join_dot (part :: seen) :: emitted todo (part :: seen)
  end.

(** ** The plugin *)

(** ["%s/%s" % (folder, entity_name)] and ["secret/ansible/%s" % (key)]. *)
Definition vault_key (folder entity_name : string) : string :=
  folder +:+ "/" +:+ entity_name.

Definition vault_path (key : string) : string := "secret/ansible/" +:+ key.

Section plugin.

(** [socket] and [self.v_client.read]: the client answers [None] for a path
    without data and otherwise the ["data"] member of the response. *)
Variable socket : socket_module.
Variable v_client_read : string → option dict.

Definition _is_valid_ipv4_address (address : string) : bool :=
  match inet_pton socket with
  | Some pton => pton AF_INET address
  | None =>
      if inet_aton socket address
      then (str_count "." address =? 3)%nat
      else false
  end.

Definition _is_valid_ipv6_address (address : string) : result bool :=
  match inet_pton socket with
  | Some pton => Ok (pton AF_INET6 address)
  | None => Raise (AttributeError "inet_pton")
  end.

Definition _is_valid_ip_address (address : string) : result bool :=
  if _is_valid_ipv4_address address then Ok true
  else _is_valid_ipv6_address address.

Definition cache_get (key : string) : M (option dict) := λ st,
  (Ok (vault_cache st !! key), st).

Definition cache_set (key : string) (data : dict) : M unit := λ st,
  (Ok (), State (heap st) (<[key := data]> (vault_cache st))
                (store_reads st) (lookups st)).

Definition client_read (path : string) : M (option dict) := λ st,
  (Ok (v_client_read path),
   State (heap st) (vault_cache st) (store_reads st ++ [path]) (lookups st)).

Definition log_lookup (folder entity_name : string) : M unit := λ st,
  (Ok (), State (heap st) (vault_cache st) (store_reads st)
                (lookups st ++ [(folder, entity_name)])).

Definition _read_vault (folder entity_name : string) : M dict :=
  log_lookup folder entity_name;;
  let key := vault_key folder entity_name in
  cached_value ← cache_get key;
  match cached_value with
  | Some cached => mret cached
  | None =>
      result ← client_read (vault_path key);
      let data := match result with Some d => d | None => ∅ end in
      cache_set key data;;
      mret data
  end.

(** Lines 148-152 of [_get_vars]: the default port of a host. *)
Definition default_port (data vars : loc) : M unit :=
  port ← dict_get vars "ansible_port";
  if py_eq port VNone then
    conn ← dict_get vars "ansible_connection";
    if py_eq conn VNone
    then dict_setitem data "ansible_port" (VInt 22)
    else mret ()
  else
    port ← dict_get vars "ansible_port";
    dict_setitem data "ansible_port" port.

(** Lines 154-161: the default connection type of a host. *)
Definition default_connection (data vars : loc) : M unit :=
  conn ← dict_get vars "ansible_connection";
  if py_eq conn VNone then
    p ← dict_getitem data "ansible_port";
    if py_eq p (VInt 5985)
    then dict_setitem data "ansible_connection" (VStr "winrm")
    else
      p ← dict_getitem data "ansible_port";
      if py_eq p (VInt 5986)
      then dict_setitem data "ansible_connection" (VStr "winrm")
      else dict_setitem data "ansible_connection" (VStr "ssh")
  else
    conn ← dict_get vars "ansible_connection";
    dict_setitem data "ansible_connection" conn.

(** Lines 148-161: the connection defaults of a host. *)
Definition connection_defaults (data vars : loc) : M unit :=
  default_port data vars;;
  default_connection data vars.

(** Lines 175-184: the loop over the reversed parts, then [return data]. *)
Fixpoint domain_loop (name : string) (parts : list string)
    (folder : string) (data : loc) (prev_part : string) : M loc :=
  match parts with
  | [] => mret data
  | part :: parts =>
      let lookup_part := part +:+ prev_part in
      folder ←
        (if String.eqb lookup_part name
         then conn ← dict_getitem data "ansible_connection";
              mret (py_str conn +:+ "/hosts")
         else mret folder);
      secret ← _read_vault folder lookup_part;
      data ← combine_vars data secret;
      domain_loop name parts folder data ("." +:+ part +:+ prev_part)
  end.

Definition _get_vars (data : loc) (e : entity) : M loc :=
  match e with
  | Group name =>
      secret ← _read_vault "groups" name;
      combine_vars data secret
  | Host name vars =>
      connection_defaults data vars;;
      conn ← dict_getitem data "ansible_connection";
      let folder := py_str conn +:+ "/hosts" in
      (* line 193, reached by every path that does not return or raise *)
      let last_line : M loc :=
        secret ← _read_vault folder name;
        combine_vars data secret in
      is_ip ← lift (_is_valid_ip_address name);
      if negb is_ip then
        let parts := str_split "." name in
        if (length parts =? 1)%nat then last_line
        else if (1 <? length parts)%nat then
          conn ← dict_getitem data "ansible_connection";
          domain_loop name (rev parts) (py_str conn +:+ "/domains") data ""
        else
          raise (AnsibleInternalError
                   "Failed to extract host name parts, len: %d"
                   (ObjInt (length parts)))
      else last_line
  | Other type_name =>
      raise (AnsibleInternalError
               "Unrecognised entity type encountered in hashivault_vars plugin: %s"
               (ObjType type_name))
  end.

Fixpoint for_each (data : loc) (entities : list entity) : M loc :=
  match entities with
  | [] => mret data
  | e :: entities => data ← _get_vars data e; for_each data entities
  end.

(** The call of [BaseVarsPlugin.get_vars] only records the base directory of
    [path] on the plugin object and is left out. *)
Definition get_vars (entities : entities_arg) : M loc :=
  let entities :=
    match entities with
    | EntityList es => es
    | NotAList e => [e]
    end in
  data ← dict_new;
  for_each data entities.

(** ** Derived notions used to state the properties *)

(** The entities [get_vars] iterates over. *)
Definition entities_of (entities : entities_arg) : list entity :=
  match entities with
  | EntityList es => es
  | NotAList e => [e]
  end.

(** What a [_read_vault] call answers in a state: the cached record, or the
    store's record (empty when the store has none). *)
Definition vault_view (st : state) (key : string) : dict :=
  match vault_cache st !! key with
  | Some cached => cached
  | None => default ∅ (v_client_read (vault_path key))
  end.

(** The state a [_read_vault] call leaves: the record it answers is cached
    under the key, the store is read on a miss only, the call is logged. *)
Definition read_state (folder entity_name : string) (st : state) : state :=
  let key := vault_key folder entity_name in
  State (heap st)
        (<[key := vault_view st key]> (vault_cache st))
        (store_reads st ++
           match vault_cache st !! key with
           | Some _ => []
           | None => [vault_path key]
           end)
        (lookups st ++ [(folder, entity_name)]).

(** The state [combine_vars] leaves: [b] over [a] in a fresh dict. *)
Definition combine_state (a : loc) (b : dict) (st : state) : state :=
  set_heap (<[fresh (dom (heap st)) := b ∪ deref st a]> (heap st)) st.

(** [wp m Q st]: running [m] from [st] ends, with a result or an exception,
    in a state that satisfies [Q]. *)
Definition wp {A} (m : M A) (Q : result A → state → Prop) (st : state) : Prop :=
  Q (m st).1 (m st).2.

(** Every dict that is live in [st] has the same contents in [st']. *)
Definition preserves (st st' : state) : Prop :=
  ∀ l, is_Some (heap st !! l) → heap st' !! l = heap st !! l.

(** Of the dicts that are live in [st], only [data] may differ in [st']. *)
Definition writes_only (data : loc) (st st' : state) : Prop :=
  ∀ l, l ≠ data → is_Some (heap st !! l) → heap st' !! l = heap st !! l.

(** A returned dict is [data] itself or was allocated after [st]. *)
Definition data_or_new (data : loc) (st : state) (r : result loc) : Prop :=
  ∀ l, r = Ok l → l = data ∨ heap st !! l = None.

(** The message of the error raised for an entity of an unknown type. *)
Definition unrecognised : string :=
  "Unrecognised entity type encountered in hashivault_vars plugin: %s".

(** Every cached record is the one the store holds for its key. *)
Definition cache_consistent (st : state) : Prop :=
  ∀ key cached, vault_cache st !! key = Some cached →
    cached = default ∅ (v_client_read (vault_path key)).

(** The contents [default_port] and [default_connection] leave in the
    accumulator [D] of a host whose variables are [V]. *)
Definition port_of (V D : dict) : dict :=
  let port := default VNone (V !! "ansible_port") in
  let conn := default VNone (V !! "ansible_connection") in
  if py_eq port VNone
  then (if py_eq conn VNone then <["ansible_port" := VInt 22]> D else D)
  else <["ansible_port" := port]> D.

Definition connection_of (V D : dict) : dict :=
  let conn := default VNone (V !! "ansible_connection") in
  let resolved := default VNone (D !! "ansible_port") in
  let conn' :=
    if py_eq conn VNone
    then VStr (if py_eq resolved (VInt 5985) || py_eq resolved (VInt 5986)
               then "winrm" else "ssh")
    else conn in
  <["ansible_connection" := conn']> D.

Definition defaults_of (V D : dict) : dict :=
  connection_of V (port_of V D).

(** The connection type of a host: the text of the [ansible_connection]
    entry that [connection_defaults] leaves in the accumulator. *)
Definition connection_type (st : state) (data vars : loc) : string :=
  py_str (default VNone
    (deref (connection_defaults data vars st).2 data !! "ansible_connection")).

(** ** A run as a fold over its lookups *)

(** The part of the state that [_read_vault] works on. *)
Definition vault_part (st : state)
    : gmap string dict * list string * list (string * string) :=
  (vault_cache st, store_reads st, lookups st).

(** The state after [_read_vault] calls with the arguments [keys], in order. *)
Definition read_all (keys : list (string * string)) (st : state) : state :=
  foldl (λ st k, read_state k.1 k.2 st) st keys.

(** The accumulator [D] with the records [view] has for [keys] merged into
    it, in order. *)
Definition merge_layers (view : string → dict) (D : dict)
    (keys : list (string * string)) : dict :=
  foldl (λ acc k, view (vault_key k.1 k.2) ∪ acc) D keys.

(** The lookups of a host whose accumulator holds [Dd] after the connection
    defaults: the [hosts] folder of a dotted name is formed from the
    accumulator as the domain records leave it. *)
Definition host_keys (view : string → dict) (Dd : dict) (is_ip : bool)
    (name : string) : list (string * string) :=
  let conn := py_str (default VNone (Dd !! "ansible_connection")) in
  if is_ip || (str_count "." name =? 0)%nat
  then [(conn +:+ "/hosts", name)]
  else
    let domains :=
      map (λ suffix, (conn +:+ "/domains", suffix)) (domain_suffixes name) in
    let merged := merge_layers view Dd domains in
    domains
    ++ [(py_str (default VNone (merged !! "ansible_connection")) +:+ "/hosts",
         name)].

(** The lookups [_get_vars] makes for an entity and the mapping it answers,
    from the records [view], the variables [vars_of] of the hosts and the
    contents [D] of the accumulator. *)
Definition resolve_entity (view : string → dict) (vars_of : loc → dict)
    (D : dict) (e : entity) : list (string * string) * result dict :=
  match e with
  | Group name => ([("groups", name)], Ok (view (vault_key "groups" name) ∪ D))
  | Host name vars =>
      match _is_valid_ip_address name with
      | Raise err => ([], Raise err)
      | Ok is_ip =>
          let Dd := defaults_of (vars_of vars) D in
          let keys := host_keys view Dd is_ip name in
          (keys, Ok (merge_layers view Dd keys))
      end
  | Other type_name =>
      ([], Raise (AnsibleInternalError unrecognised (ObjType type_name)))
  end.

(** The same for a batch, entity after entity, up to the first that raises. *)
Fixpoint resolve_all (view : string → dict) (vars_of : loc → dict)
    (D : dict) (entities : list entity) : list (string * string) * result dict :=
  match entities with
  | [] => ([], Ok D)
  | e :: entities =>
      match resolve_entity view vars_of D e with
      | (keys, Ok D') =>
          let '(keys', res) := resolve_all view vars_of D' entities in
          (keys ++ keys', res)
      | (keys, Raise err) => (keys, Raise err)
      end
  end.

(** The [vars] dicts of the hosts of a batch. *)
Definition host_vars (entities : list entity) : list loc :=
  omap (λ e, match e with Host _ vars => Some vars | _ => None end) entities.

(** No store path was read twice, and every path read is the path of a cached
    key. *)
Definition reads_once (st : state) : Prop :=
  NoDup (store_reads st)
  ∧ ∀ path, path ∈ store_reads st →
      ∃ key, path = vault_path key ∧ is_Some (vault_cache st !! key).

(** ** Construction of the plugin *)




(** ** More of the concrete environment *)

(** A [socket] module without [inet_pton]. *)
Definition legacy_socket : socket_module := SocketModule None dotted_quad.




(** * Properties *)

(** ** Strings: splitting and joining on ['.'] *)

Lemma append_cons (c : ascii) (s t : string) :
  String c s +:+ t = String c (s +:+ t).
Proof. reflexivity. Qed.

Lemma append_empty_r (s : string) : s +:+ "" = s.
Proof. induction s as [|c s IH]; [done | by rewrite append_cons, IH]. Qed.

Lemma str_split_cons (sep c : ascii) (s : string) :
  str_split sep (String c s) =
    if Ascii.eqb c sep then EmptyString :: str_split sep s
    else match str_split sep s with
         | p :: ps => String c p :: ps
         | [] => []
         end.
Proof.
  unfold str_split; simpl. destruct (split_aux sep s) as [p ps].
  by destruct (Ascii.eqb c sep).
Qed.

Lemma str_split_nonempty (sep : ascii) (s : string) : str_split sep s ≠ [].
Proof. unfold str_split. by destruct (split_aux sep s). Qed.

Lemma length_str_split (sep : ascii) (s : string) :
  length (str_split sep s) = S (str_count sep s).
Proof.
  induction s as [|c s IH]; [done|].
  rewrite str_split_cons. simpl. destruct (Ascii.eqb c sep); simpl.
  - by rewrite IH.
  - destruct (str_split sep s); simpl in *; [done | lia].
Qed.

Lemma join_dot_cons (p : string) (ps : list string) :
  ps ≠ [] → join_dot (p :: ps) = p +:+ "." +:+ join_dot ps.
Proof. by destruct ps. Qed.

Lemma join_dot_prev (part : string) (seen : list string) :
  join_dot (part :: seen) = part +:+ prev_of seen.
Proof. destruct seen; unfold prev_of; [by rewrite append_empty_r | done]. Qed.

(** Splitting at the dots and joining with dots gives the string back. *)
Lemma join_dot_str_split (s : string) : join_dot (str_split "." s) = s.
Proof.
  induction s as [|c s IH]; [done|].
  rewrite str_split_cons.
  pose proof (str_split_nonempty "." s) as Hne.
  destruct (Ascii.eqb c ".") eqn:Hc.
  - apply Ascii.eqb_eq in Hc as ->.
    rewrite join_dot_cons by done. by rewrite IH.
  - destruct (str_split "." s) as [|p ps]; [done|].
    destruct ps as [|q ps]; simpl in *; [by rewrite IH|].
    by rewrite append_cons, IH.
Qed.

(** No part of a split contains the separator. *)
Lemma str_split_no_sep (sep : ascii) (s : string) :
  Forall (λ p, str_count sep p = O) (str_split sep s).
Proof.
  induction s as [|c s IH]; [by repeat constructor|].
  rewrite str_split_cons. destruct (Ascii.eqb c sep) eqn:Hc.
  - by constructor.
  - destruct (str_split sep s) as [|p ps]; [done|].
    inversion IH as [|? ? Hp Hps]; subst. constructor; [|done].
    simpl. by rewrite Hc.
Qed.

Lemma domain_suffixes_no_dot (p : string) :
  str_count "." p = O → domain_suffixes p = [].
Proof.
  induction p as [|c p IH]; [done|]. simpl.
  destruct (Ascii.eqb c "."); [done | auto].
Qed.

Lemma domain_suffixes_label (p rest : string) :
  str_count "." p = O →
  domain_suffixes (p +:+ "." +:+ rest) = domain_suffixes rest ++ [rest].
Proof.
  induction p as [|c p IH]; [done|]. rewrite append_cons. simpl.
  destruct (Ascii.eqb c "."); [done | auto].
Qed.

(** Every domain suffix is strictly shorter than the name. *)
Lemma domain_suffixes_shorter (name suffix : string) :
  suffix ∈ domain_suffixes name →
  (String.length suffix < String.length name)%nat.
Proof.
  induction name as [|c name IH]; simpl; [by intros ?%elem_of_nil|].
  destruct (Ascii.eqb c ".").
  - rewrite elem_of_app, list_elem_of_singleton. intros [Hin| ->]; [|lia].
    apply IH in Hin. lia.
  - intros Hin. apply IH in Hin. lia.
Qed.

Lemma emitted_app (l1 l2 seen : list string) :
  emitted (l1 ++ l2) seen = emitted l1 seen ++ emitted l2 (rev l1 ++ seen).
Proof.
  revert seen. induction l1 as [|p l1 IH]; intros seen; [done|].
  simpl. rewrite IH. by rewrite <- app_assoc.
Qed.

(** The loop over the reversed parts of a name visits its domain suffixes,
    widest first, and then the name itself. *)
Lemma emitted_rev_parts (parts : list string) :
  parts ≠ [] →
  Forall (λ p, str_count "." p = O) parts →
  emitted (rev parts) [] = domain_suffixes (join_dot parts) ++ [join_dot parts].
Proof.
  induction parts as [|p ps IH]; [done|]. intros _ Hdots.
  inversion Hdots as [|? ? Hp Hps]; subst.
  simpl rev. rewrite emitted_app, rev_involutive, app_nil_r. simpl emitted.
  destruct ps as [|q ps].
  - simpl. by rewrite domain_suffixes_no_dot.
  - rewrite IH by done. rewrite (join_dot_cons p (q :: ps)) by done.
    by rewrite domain_suffixes_label.
Qed.

Lemma emitted_str_split (name : string) :
  emitted (rev (str_split "." name)) [] = domain_suffixes name ++ [name].
Proof.
  rewrite emitted_rev_parts.
  - by rewrite join_dot_str_split.
  - apply str_split_nonempty.
  - apply str_split_no_sep.
Qed.

(** ** Running the primitives *)

Lemma bind_run {A B} (m : M A) (f : A → M B) (st : state) :
  (m ≫= f) st =
    match m st with
    | (Ok a, st') => f a st'
    | (Raise e, st') => (Raise e, st')
    end.
Proof. reflexivity. Qed.

Lemma deref_set_heap (h : gmap loc dict) (st : state) (l : loc) :
  deref (set_heap h st) l = default ∅ (h !! l).
Proof. reflexivity. Qed.

Lemma deref_insert (st : state) (d l : loc) (X : dict) :
  deref (set_heap (<[d := X]> (heap st)) st) l =
    if decide (d = l) then X else deref st l.
Proof.
  rewrite deref_set_heap, lookup_insert. by destruct (decide (d = l)).
Qed.

Lemma set_heap_set_heap (h h' : gmap loc dict) (st : state) :
  set_heap h (set_heap h' st) = set_heap h st.
Proof. reflexivity. Qed.

(** [default_port] writes nothing when the host sets a connection type and
    no port. *)
Lemma default_port_run (data vars : loc) (st : state) :
  let port := default VNone (deref st vars !! "ansible_port") in
  let conn := default VNone (deref st vars !! "ansible_connection") in
  default_port data vars st =
    (Ok (),
     if py_eq port VNone && negb (py_eq conn VNone)
     then st
     else set_heap
            (<[data := port_of (deref st vars) (deref st data)]> (heap st)) st).
Proof.
  intros port conn. unfold default_port, port_of.
  rewrite bind_run. unfold dict_get at 1. cbv beta iota zeta. fold port.
  destruct (py_eq port VNone) eqn:Hp.
  - rewrite bind_run. unfold dict_get at 1. cbv beta iota. fold conn.
    by destruct (py_eq conn VNone).
  - reflexivity.
Qed.

Lemma port_of_connection (V D : dict) :
  port_of V D !! "ansible_connection" = D !! "ansible_connection".
Proof.
  unfold port_of. repeat case_match; by rewrite ?lookup_insert_ne.
Qed.

(** [default_connection] raises [KeyError] when it must read a port that the
    accumulator does not have. *)
Lemma default_connection_run (data vars : loc) (st : state) :
  let conn := default VNone (deref st vars !! "ansible_connection") in
  let st' :=
    set_heap
      (<[data := connection_of (deref st vars) (deref st data)]> (heap st)) st in
  default_connection data vars st =
    match deref st data !! "ansible_port" with
    | None =>
        if py_eq conn VNone
        then (Raise (KeyError "ansible_port"), st)
        else (Ok (), st')
    | Some _ => (Ok (), st')
    end.
Proof.
  intros conn st'. unfold st', default_connection, connection_of.
  rewrite bind_run. unfold dict_get at 1. cbv beta iota zeta. fold conn.
  destruct (py_eq conn VNone) eqn:Hc.
  - rewrite bind_run. unfold dict_getitem at 1.
    destruct (deref st data !! "ansible_port") as [p|] eqn:Hport; [|done].
    simpl default.
    destruct (py_eq p (VInt 5985)) eqn:H1; [done|].
    rewrite bind_run. unfold dict_getitem at 1. rewrite Hport.
    by destruct (py_eq p (VInt 5986)) eqn:H2.
  - by destruct (deref st data !! "ansible_port").
Qed.

(** [connection_defaults] never raises and writes the accumulator only,
    whether or not [data] and [vars] are the same object. *)
Lemma connection_defaults_run (data vars : loc) (st : state) :
  connection_defaults data vars st =
    (Ok (),
     set_heap
       (<[data := defaults_of (deref st vars) (deref st data)]> (heap st)) st).
Proof.
  unfold connection_defaults, defaults_of.
  rewrite bind_run, default_port_run. cbv zeta.
  set (V := deref st vars). set (D := deref st data).
  set (port := default VNone (V !! "ansible_port")).
  set (conn := default VNone (V !! "ansible_connection")).
  rewrite default_connection_run. cbv zeta.
  destruct (py_eq port VNone && negb (py_eq conn VNone)) eqn:Hskip.
  - apply andb_true_iff in Hskip as [Hp Hc%negb_true_iff].
    fold V D conn. rewrite Hc.
    assert (port_of V D = D) as ->.
    { unfold port_of. fold port conn. by rewrite Hp, Hc. }
    by destruct (D !! "ansible_port").
  - rewrite !deref_insert.
    rewrite decide_True by done.
    assert (default VNone
             ((if decide (data = vars) then port_of V D else deref st vars)
                !! "ansible_connection") = conn) as Hconn.
    { destruct (decide (data = vars)) as [->|]; [|done].
      by rewrite port_of_connection. }
    assert (connection_of
              (if decide (data = vars) then port_of V D else deref st vars)
              (port_of V D)
            = connection_of V (port_of V D)) as ->.
    { unfold connection_of. by rewrite Hconn. }
    rewrite Hconn.
    rewrite set_heap_set_heap. simpl heap. rewrite insert_insert_eq.
    destruct (port_of V D !! "ansible_port") eqn:Hport; [done|].
    destruct (py_eq conn VNone) eqn:Hc; [|done].
    exfalso. unfold port_of in Hport. fold port conn in Hport.
    rewrite Hc in Hport.
    by destruct (py_eq port VNone); rewrite lookup_insert_eq in Hport.
Qed.

Lemma connection_type_eq (st : state) (data vars : loc) :
  connection_type st data vars =
    py_str (default VNone
      (defaults_of (deref st vars) (deref st data) !! "ansible_connection")).
Proof.
  unfold connection_type. rewrite connection_defaults_run. simpl snd.
  rewrite deref_insert. by rewrite decide_True.
Qed.

Lemma defaults_of_connection (V D : dict) :
  is_Some (defaults_of V D !! "ansible_connection").
Proof. unfold defaults_of, connection_of. rewrite lookup_insert_eq. eauto. Qed.

Lemma read_vault_run (folder entity_name : string) (st : state) :
  _read_vault folder entity_name st =
    (Ok (vault_view st (vault_key folder entity_name)),
     read_state folder entity_name st).
Proof.
  unfold _read_vault, read_state, vault_view.
  rewrite bind_run. unfold log_lookup at 1. cbv beta iota zeta.
  rewrite bind_run. unfold cache_get at 1.
  cbn [vault_cache heap store_reads lookups].
  destruct (vault_cache st !! vault_key folder entity_name) as [cached|] eqn:Hc.
  - unfold mret, M_ret. by rewrite insert_id, app_nil_r.
  - rewrite bind_run. unfold client_read at 1. cbv beta iota.
    rewrite bind_run. unfold cache_set at 1. cbv beta iota.
    by destruct (v_client_read _).
Qed.

Lemma combine_vars_run (a : loc) (b : dict) (st : state) :
  combine_vars a b st = (Ok (fresh (dom (heap st))), combine_state a b st).
Proof. reflexivity. Qed.

Lemma fresh_heap (st : state) : heap st !! fresh (dom (heap st)) = None.
Proof. apply not_elem_of_dom, is_fresh. Qed.

Lemma vault_view_read_state (folder entity_name key : string) (st : state) :
  vault_view (read_state folder entity_name st) key = vault_view st key.
Proof.
  unfold vault_view at 1. simpl vault_cache.
  destruct (decide (vault_key folder entity_name = key)) as [<-|Hne].
  - by rewrite lookup_insert_eq.
  - by rewrite lookup_insert_ne.
Qed.

Lemma vault_view_set_heap (h : gmap loc dict) (st : state) (key : string) :
  vault_view (set_heap h st) key = vault_view st key.
Proof. reflexivity. Qed.

Lemma deref_read_state (folder entity_name : string) (st : state) (l : loc) :
  deref (read_state folder entity_name st) l = deref st l.
Proof. reflexivity. Qed.

Lemma deref_combine_state (a : loc) (b : dict) (st : state) :
  deref (combine_state a b st) (fresh (dom (heap st))) = b ∪ deref st a.
Proof. unfold combine_state. rewrite deref_insert. by rewrite decide_True. Qed.

(** ** Composing runs *)

Lemma wp_bind {A B} (m : M A) (f : A → M B) (Q : result B → state → Prop)
    (st : state) :
  wp m (λ r st',
          match r with
          | Ok a => wp (f a) Q st'
          | Raise e => Q (Raise e) st'
          end) st →
  wp (m ≫= f) Q st.
Proof.
  unfold wp. rewrite bind_run. by destruct (m st) as [[a|e] st'].
Qed.

Lemma wp_mono {A} (m : M A) (P Q : result A → state → Prop) (st : state) :
  (∀ r st', P r st' → Q r st') → wp m P st → wp m Q st.
Proof. unfold wp. auto. Qed.

Lemma wp_run {A} (m : M A) (Q : result A → state → Prop) (st st' : state)
    (r : result A) :
  m st = (r, st') → Q r st' → wp m Q st.
Proof. unfold wp. by intros ->. Qed.

(** ** The lookups of a host *)

Lemma emitted_nil_inv (todo seen : list string) :
  emitted todo seen = [] → todo = [].
Proof. by destruct todo. Qed.

Lemma domain_loop_cons (name part : string) (parts : list string)
    (folder : string) (data : loc) (prev_part : string) :
  domain_loop name (part :: parts) folder data prev_part =
    (folder ←
       (if String.eqb (part +:+ prev_part) name
        then conn ← dict_getitem data "ansible_connection";
             mret (py_str conn +:+ "/hosts")
        else mret folder);
     secret ← _read_vault folder (part +:+ prev_part);
     data ← combine_vars data secret;
     domain_loop name parts folder data ("." +:+ part +:+ prev_part)).
Proof. reflexivity. Qed.

(** The loop of a dotted name: one [domains] lookup per value of
    [lookup_part] that is not the name, then the [hosts] lookup of the name,
    as long as no domain record sets [ansible_connection]. *)
Lemma domain_loop_lookups (name : string) (c : value) :
  ∀ (todo seen D' : list string) (data : loc) (st : state),
    emitted todo seen = D' ++ [name] →
    (∀ s, s ∈ D' → s ≠ name) →
    deref st data !! "ansible_connection" = Some c →
    (∀ s, s ∈ D' →
       vault_view st (vault_key (py_str c +:+ "/domains") s)
         !! "ansible_connection" = None) →
    ∃ r st',
      domain_loop name todo (py_str c +:+ "/domains") data (prev_of seen) st
        = (Ok r, st')
      ∧ lookups st' =
          lookups st
          ++ map (λ s, (py_str c +:+ "/domains", s)) D'
          ++ [(py_str c +:+ "/hosts", name)].
Proof.
  induction todo as [|part rest IH]; intros seen D' data st Hem Hne Hc Hview.
  { by destruct D'. }
  rewrite domain_loop_cons, <- join_dot_prev.
  change ("." +:+ join_dot (part :: seen)) with (prev_of (part :: seen)).
  destruct D' as [|s D'']; cbn [emitted app] in Hem.
  - assert (join_dot (part :: seen) = name ∧ emitted rest (part :: seen) = [])
      as [Hname Hrest] by (by inversion Hem).
    apply emitted_nil_inv in Hrest as ->.
    rewrite Hname, String.eqb_refl.
    rewrite !bind_run. unfold dict_getitem at 1. rewrite Hc.
    unfold mret at 1, M_ret at 1. cbv beta iota.
    rewrite bind_run, read_vault_run, bind_run, combine_vars_run.
    eexists _, _. split; [reflexivity|]. done.
  - assert (s = join_dot (part :: seen)
            ∧ emitted rest (part :: seen) = D'' ++ [name])
      as [-> Hrest] by (by inversion Hem).
    assert (String.eqb (join_dot (part :: seen)) name = false) as ->.
    { apply String.eqb_neq, Hne. left. }
    rewrite bind_run. unfold mret at 1, M_ret at 1. cbv beta iota.
    rewrite bind_run, read_vault_run, bind_run, combine_vars_run.
    set (st1 := read_state _ _ st).
    set (secret := vault_view st _).
    destruct (IH (part :: seen) D'' (fresh (dom (heap st1)))
                (combine_state data secret st1)) as (r & st' & Hrun & Hlook).
    + done.
    + intros s Hin. apply Hne. by right.
    + rewrite deref_combine_state, lookup_union_r; [done|].
      apply Hview. left.
    + intros s Hin. unfold combine_state. rewrite vault_view_set_heap.
      unfold st1. rewrite vault_view_read_state. apply Hview. by right.
    + exists r, st'. split; [done|]. rewrite Hlook. simpl.
      by rewrite <- app_assoc.
Qed.

(** [_get_vars] on a host, after the connection defaults. *)
Lemma get_vars_host_run (data vars : loc) (name : string) (st : state) :
  let st1 :=
    set_heap
      (<[data := defaults_of (deref st vars) (deref st data)]> (heap st)) st in
  let conn :=
    default VNone
      (defaults_of (deref st vars) (deref st data) !! "ansible_connection") in
  let last_line := secret ← _read_vault (py_str conn +:+ "/hosts") name;
                   combine_vars data secret in
  let parts := str_split "." name in
  _get_vars data (Host name vars) st =
    match _is_valid_ip_address name with
    | Raise e => (Raise e, st1)
    | Ok true => last_line st1
    | Ok false =>
        if (length parts =? 1)%nat then last_line st1
        else if (1 <? length parts)%nat then
          domain_loop name (rev parts) (py_str conn +:+ "/domains") data "" st1
        else
          (Raise (AnsibleInternalError
                    "Failed to extract host name parts, len: %d"
                    (ObjInt (length parts))), st1)
    end.
Proof.
  intros st1 conn last_line parts. unfold _get_vars.
  rewrite bind_run, connection_defaults_run. fold st1.
  rewrite bind_run. unfold dict_getitem at 1.
  assert (deref st1 data = defaults_of (deref st vars) (deref st data)) as Hd.
  { unfold st1. rewrite deref_insert. by rewrite decide_True. }
  rewrite Hd.
  destruct (defaults_of_connection (deref st vars) (deref st data)) as [c Hc].
  assert (conn = c) as Hconn by (unfold conn; by rewrite Hc).
  rewrite Hc. cbv zeta. rewrite bind_run. unfold lift at 1.
  destruct (_is_valid_ip_address name) as [[|]|e]; cbn [negb];
    [by rewrite <- Hconn| |done].
  fold parts.
  destruct (length parts =? 1)%nat; [by rewrite <- Hconn|].
  destruct (1 <? length parts)%nat; [|done].
  rewrite bind_run. unfold dict_getitem at 1. rewrite Hd, Hc.
  by rewrite Hconn.
Qed.

Lemma last_line_lookups (folder name : string) (data : loc) (st : state) :
  ∃ r st',
    (secret ← _read_vault folder name; combine_vars data secret) st = (Ok r, st')
    ∧ lookups st' = lookups st ++ [(folder, name)].
Proof.
  rewrite bind_run, read_vault_run, combine_vars_run.
  by eexists _, _.
Qed.

(** C1 (amended). For every Host whose name [_is_valid_ip_address] rejects
    and whose domain-level records do not set [ansible_connection], the
    lookups made from its name are, in order: for a name without ['.'] the
    one key (connection type + "/hosts", name); otherwise one key per domain
    suffix, widest first, under connection type + "/domains", followed by
    the one key of the full name under connection type + "/hosts". *)
Theorem host_lookup_sequence (st : state) (data vars : loc) (name : string) :
  _is_valid_ip_address name = Ok false →
  (∀ suffix, suffix ∈ domain_suffixes name →
     vault_view st
       (vault_key (connection_type st data vars +:+ "/domains") suffix)
       !! "ansible_connection" = None) →
  ∃ r st',
    _get_vars data (Host name vars) st = (Ok r, st')
    ∧ lookups st' = lookups st ++ lookup_keys (connection_type st data vars) name.
Proof.
  intros Hip Hview. rewrite get_vars_host_run, Hip.
  rewrite connection_type_eq in *. unfold lookup_keys.
  destruct (defaults_of_connection (deref st vars) (deref st data)) as [c Hc].
  rewrite Hc in *. change (default VNone (Some c)) with c in *.
  set (st1 := set_heap _ st).
  rewrite length_str_split.
  destruct (str_count "." name) as [|n] eqn:Hdots.
  - apply (last_line_lookups _ name data st1).
  - change (S (S n) =? 1)%nat with false. change (1 <? S (S n))%nat with true.
    cbv iota.
    apply (domain_loop_lookups name c (rev (str_split "." name)) []
             (domain_suffixes name) data st1).
    + apply emitted_str_split.
    + intros s Hs ->. apply domain_suffixes_shorter in Hs. lia.
    + unfold st1. rewrite deref_insert. by rewrite decide_True.
    + intros s Hs. unfold st1. rewrite vault_view_set_heap. by apply Hview.
Qed.

(** C9. For every Host whose name [_is_valid_ip_address] accepts (a valid
    IPv4 or IPv6 address, dotted or not), resolution does not decompose the
    name: it makes exactly one lookup, (connection type + "/hosts", name). *)
Theorem ip_address_single_lookup (st : state) (data vars : loc) (name : string) :
  _is_valid_ip_address name = Ok true →
  ∃ r st',
    _get_vars data (Host name vars) st = (Ok r, st')
    ∧ lookups st' =
        lookups st ++ [(connection_type st data vars +:+ "/hosts", name)].
Proof.
  intros Hip. rewrite get_vars_host_run, Hip, connection_type_eq.
  set (st1 := set_heap _ st).
  apply (last_line_lookups _ name data st1).
Qed.

(** ** Connection defaults *)

(** C2. After the connection defaults of a Host, the accumulator holds: the
    host's own [ansible_port] when it specifies one, 22 when it specifies
    neither port nor connection (and the accumulator's earlier port entry
    otherwise); the host's own [ansible_connection] when it specifies one,
    and otherwise "winrm" when the resolved port equals 5985 or 5986 and
    "ssh" otherwise. A variable is specified when [vars.get] does not answer
    [None]. *)
Theorem connection_defaults_resolved (st : state) (data vars : loc) :
  let port := default VNone (deref st vars !! "ansible_port") in
  let conn := default VNone (deref st vars !! "ansible_connection") in
  ∃ st',
    connection_defaults data vars st = (Ok (), st')
    ∧ deref st' data !! "ansible_port" =
        (if py_eq port VNone
         then if py_eq conn VNone
              then Some (VInt 22)
              else deref st data !! "ansible_port"
         else Some port)
    ∧ deref st' data !! "ansible_connection" =
        Some (if py_eq conn VNone
              then
                let resolved :=
                  default VNone (deref st' data !! "ansible_port") in
                VStr (if py_eq resolved (VInt 5985)
                         || py_eq resolved (VInt 5986)
                      then "winrm" else "ssh")
              else conn).
Proof.
  intros port conn. eexists. split; [apply connection_defaults_run|].
  rewrite deref_insert, decide_True by done.
  unfold defaults_of, connection_of.
  rewrite lookup_insert_ne by done. rewrite lookup_insert_eq.
  split; [|done].
  unfold port_of. fold port conn.
  destruct (py_eq port VNone); [destruct (py_eq conn VNone)|];
    by rewrite ?lookup_insert_eq.
Qed.

(** ** The overlay merge *)

(** C3. Overlay merge law: merging a secret record [B] into an accumulator
    gives, for every key, [B]'s value when [B] has the key, whatever the
    accumulator held, and the accumulator's value otherwise; this is the
    merge a Group lookup performs with the record Vault answers. *)
Theorem overlay_merge_law (st : state) (data : loc) (B : dict) (k : string) :
  (∃ r st',
     combine_vars data B st = (Ok r, st')
     ∧ deref st' r !! k =
         match B !! k with
         | Some v => Some v
         | None => deref st data !! k
         end)
  ∧ (∀ name,
       ∃ r st',
         _get_vars data (Group name) st = (Ok r, st')
         ∧ deref st' r !! k =
             match vault_view st (vault_key "groups" name) !! k with
             | Some v => Some v
             | None => deref st data !! k
             end).
Proof.
  assert (∀ (A C : dict),
            (C ∪ A) !! k = match C !! k with Some v => Some v | None => A !! k end)
    as Hunion.
  { intros A C. rewrite lookup_union. by destruct (C !! k), (A !! k). }
  split.
  - eexists _, _. split; [apply combine_vars_run|].
    by rewrite deref_combine_state, Hunion.
  - intros name. eexists _, _. split.
    + unfold _get_vars. rewrite bind_run, read_vault_run.
      apply combine_vars_run.
    + by rewrite deref_combine_state, Hunion.
Qed.

(** ** The lookup cache *)

(** C4. Cache idempotence: from a state whose cache has no entry for
    folder + "/" + name, the first [_read_vault] reads the store once, at
    "secret/ansible/" + key, and stores the record under the key; the second
    call, and every later call made while the entry is cached, answers the
    cached record and reads nothing from the store. *)
Theorem cache_idempotence (st : state) (folder name : string) :
  vault_cache st !! vault_key folder name = None →
  ∃ record st1 st2,
    _read_vault folder name st = (Ok record, st1)
    ∧ store_reads st1 = store_reads st ++ [vault_path (vault_key folder name)]
    ∧ vault_cache st1 !! vault_key folder name = Some record
    ∧ _read_vault folder name st1 = (Ok record, st2)
    ∧ store_reads st2 = store_reads st1
    ∧ vault_cache st2 = vault_cache st1
    ∧ ∀ later,
        vault_cache later !! vault_key folder name = Some record →
        ∃ later',
          _read_vault folder name later = (Ok record, later')
          ∧ store_reads later' = store_reads later
          ∧ vault_cache later' = vault_cache later.
Proof.
  intros Hmiss.
  assert (∀ later record,
            vault_cache later !! vault_key folder name = Some record →
            ∃ later',
              _read_vault folder name later = (Ok record, later')
              ∧ store_reads later' = store_reads later
              ∧ vault_cache later' = vault_cache later) as Hhit.
  { intros later record Hc. eexists. rewrite read_vault_run.
    unfold vault_view, read_state. rewrite Hc. cbn.
    split; [done|]. split; [apply app_nil_r|].
    unfold vault_view. rewrite Hc. by apply insert_id. }
  set (record := vault_view st (vault_key folder name)).
  assert (vault_cache (read_state folder name st) !! vault_key folder name
          = Some record) as Hcached.
  { unfold read_state. cbn. apply lookup_insert_eq. }
  destruct (Hhit _ _ Hcached) as (st2 & Hrun2 & Hreads2 & Hcache2).
  exists record, (read_state folder name st), st2.
  split; [apply read_vault_run|].
  split; [unfold read_state; cbn; by rewrite Hmiss|].
  repeat (split; [done|]). intros later. apply Hhit.
Qed.

Lemma cache_consistent_read_state (folder name : string) (st : state) :
  cache_consistent st → cache_consistent (read_state folder name st).
Proof.
  intros Hst key cached. unfold read_state. cbn.
  destruct (decide (vault_key folder name = key)) as [<-|Hne].
  - rewrite lookup_insert_eq. intros [= <-]. unfold vault_view.
    destruct (vault_cache st !! vault_key folder name) eqn:Hc; [|done].
    by apply Hst.
  - rewrite lookup_insert_ne by done. apply Hst.
Qed.

(** C5. A store path without data is not an error: where the cache agrees
    with the store, [_read_vault] answers the empty mapping and leaves it
    cached under the key, and merging it gives an accumulator with the same
    contents. *)
Theorem store_miss_is_empty (st : state) (folder name : string) (data : loc) :
  cache_consistent st →
  v_client_read (vault_path (vault_key folder name)) = None →
  ∃ st',
    _read_vault folder name st = (Ok ∅, st')
    ∧ vault_cache st' !! vault_key folder name = Some ∅
    ∧ ∃ r st'',
        combine_vars data ∅ st' = (Ok r, st'')
        ∧ deref st'' r = deref st data
        ∧ vault_cache st'' = vault_cache st'.
Proof.
  intros Hst Hmiss.
  assert (vault_view st (vault_key folder name) = ∅) as Hview.
  { unfold vault_view.
    destruct (vault_cache st !! vault_key folder name) eqn:Hc.
    - apply Hst in Hc. by rewrite Hmiss in Hc.
    - by rewrite Hmiss. }
  exists (read_state folder name st).
  split; [by rewrite read_vault_run, Hview|].
  split; [unfold read_state; cbn; by rewrite lookup_insert_eq, Hview|].
  eexists _, _. split; [apply combine_vars_run|].
  split; [|done].
  rewrite deref_combine_state, deref_read_state. apply (left_id_L ∅ (∪)).
Qed.

(** ** Frame: which dicts a run writes *)

Lemma preserves_refl (st : state) : preserves st st.
Proof. by intros l _. Qed.

Lemma preserves_trans (st1 st2 st3 : state) :
  preserves st1 st2 → preserves st2 st3 → preserves st1 st3.
Proof.
  intros H12 H23 l Hl. rewrite <- (H12 l Hl). apply H23.
  by rewrite (H12 l Hl).
Qed.

Lemma preserves_read_state (folder name : string) (st : state) :
  preserves st (read_state folder name st).
Proof. by intros l _. Qed.

Lemma preserves_combine_state (a : loc) (b : dict) (st : state) :
  preserves st (combine_state a b st).
Proof.
  intros l Hl. unfold combine_state. cbn. apply lookup_insert_ne.
  intros <-. rewrite fresh_heap in Hl. by destruct Hl.
Qed.

Lemma preserves_not_live (st st' : state) (l : loc) :
  preserves st st' → heap st' !! l = None → heap st !! l = None.
Proof.
  intros Hp Hl. destruct (heap st !! l) as [d|] eqn:Hd; [|done].
  rewrite (Hp l) in Hl by (by rewrite Hd). congruence.
Qed.

(** The folder of a loop step is computed without touching the state. *)
Lemma loop_folder_run (b : bool) (data : loc) (folder : string) (st : state) :
  ∃ r,
    (if b
     then conn ← dict_getitem data "ansible_connection";
          mret (py_str conn +:+ "/hosts")
     else mret folder) st = (r, st).
Proof.
  destruct b; [|by eexists].
  rewrite bind_run. unfold dict_getitem at 1.
  destruct (deref st data !! "ansible_connection"); by eexists.
Qed.

Lemma domain_loop_frame (name : string) :
  ∀ (todo : list string) (folder : string) (data : loc) (prev_part : string)
    (st : state),
    wp (domain_loop name todo folder data prev_part)
       (λ r st', preserves st st' ∧ data_or_new data st r) st.
Proof.
  induction todo as [|part rest IH]; intros folder data prev_part st.
  { split; [apply preserves_refl|]. intros l [= <-]. by left. }
  rewrite domain_loop_cons. apply wp_bind.
  destruct (loop_folder_run (String.eqb (part +:+ prev_part) name)
              data folder st) as [r Hr].
  eapply wp_run; [exact Hr|].
  destruct r as [folder'|e]; [|split; [apply preserves_refl | by intros l]].
  eapply wp_bind, wp_run; [apply read_vault_run|]. cbv beta iota.
  eapply wp_bind, wp_run; [apply combine_vars_run|]. cbv beta iota.
  eapply wp_mono; [|apply IH]. cbv beta.
  set (st1 := read_state _ _ st).
  intros r st' [Hp Hr'].
  assert (preserves st st') as Hst.
  { eapply preserves_trans; [|exact Hp].
    eapply preserves_trans; [apply preserves_read_state|].
    apply preserves_combine_state. }
  split; [done|]. intros l Hl. right.
  destruct (Hr' l Hl) as [->|Hnew].
  - apply (fresh_heap st1).
  - eapply preserves_not_live; [|exact Hnew].
    eapply preserves_trans; [apply preserves_read_state|].
    apply preserves_combine_state.
Qed.

Lemma last_line_frame (folder name : string) (data : loc) (st : state) :
  wp (secret ← _read_vault folder name; combine_vars data secret)
     (λ r st', preserves st st' ∧ data_or_new data st r) st.
Proof.
  eapply wp_bind, wp_run; [apply read_vault_run|]. cbv beta iota.
  eapply wp_run; [apply combine_vars_run|].
  split.
  - eapply preserves_trans; [apply preserves_read_state|].
    apply preserves_combine_state.
  - intros l [= <-]. right. apply (fresh_heap (read_state folder name st)).
Qed.

Lemma writes_only_after (data : loc) (X : dict) (st st' : state)
    (r : result loc) :
  preserves (set_heap (<[data := X]> (heap st)) st) st'
  ∧ data_or_new data (set_heap (<[data := X]> (heap st)) st) r →
  writes_only data st st' ∧ data_or_new data st r.
Proof.
  intros [Hp Hr]. split.
  - intros l Hne Hl. rewrite Hp; cbn; rewrite lookup_insert_ne; done.
  - intros l Hl. destruct (Hr l Hl) as [->|Hnew]; [by left|]. right.
    cbn in Hnew. destruct (decide (data = l)) as [->|Hne].
    + by rewrite lookup_insert_eq in Hnew.
    + by rewrite lookup_insert_ne in Hnew.
Qed.

(** [_get_vars] writes no dict that was live before the call except [data],
    and answers [data] or a dict made during the call. *)
Lemma get_vars_frame (data : loc) (e : entity) (st : state) :
  wp (_get_vars data e)
     (λ r st', writes_only data st st' ∧ data_or_new data st r) st.
Proof.
  destruct e as [name|name vars|type_name].
  - eapply wp_mono; [|apply last_line_frame].
    intros r st' [Hp Hr]. split; [|done]. intros l _. apply Hp.
  - unfold wp. rewrite get_vars_host_run.
    set (X := defaults_of (deref st vars) (deref st data)).
    set (st1 := set_heap _ st). set (conn := default VNone _).
    destruct (_is_valid_ip_address name) as [[|]|err].
    + apply (writes_only_after data X), (last_line_frame _ name data st1).
    + destruct (length (str_split "." name) =? 1)%nat.
      { apply (writes_only_after data X), (last_line_frame _ name data st1). }
      destruct (1 <? length (str_split "." name))%nat.
      { apply (writes_only_after data X),
          (domain_loop_frame name _ _ data _ st1). }
      apply (writes_only_after data X).
      split; [apply preserves_refl | by intros l].
    + apply (writes_only_after data X).
      split; [apply preserves_refl | by intros l].
  - split; [by intros l | by intros l].
Qed.

Lemma for_each_frame (entities : list entity) :
  ∀ (data vars : loc) (st : state),
    vars ≠ data → is_Some (heap st !! vars) →
    heap (for_each data entities st).2 !! vars = heap st !! vars.
Proof.
  induction entities as [|e es IH]; intros data vars st Hne Hlive; [done|].
  cbn [for_each]. rewrite bind_run.
  pose proof (get_vars_frame data e st) as Hframe. unfold wp in Hframe.
  destruct (_get_vars data e st) as [[data'|err] st1]; cbn in Hframe;
    destruct Hframe as [Hw Hr].
  - rewrite IH.
    + by apply Hw.
    + destruct (Hr data' eq_refl) as [->|Hnew]; [done|].
      intros ->. rewrite Hnew in Hlive. by destruct Hlive.
    + by rewrite Hw.
  - by apply Hw.
Qed.

(** C8. Resolving a Host never mutates the entity's own [vars]: the
    connection defaults write the accumulator and no other dict, and after
    [get_vars] the [vars] of every Host of the batch holds what it held
    before. *)
Theorem entity_vars_not_mutated (entities : entities_arg) (st : state)
    (name : string) (vars : loc) :
  Host name vars ∈ entities_of entities →
  is_Some (heap st !! vars) →
  heap (get_vars entities st).2 !! vars = heap st !! vars
  ∧ ∀ data st0 l,
      l ≠ data →
      heap (connection_defaults data vars st0).2 !! l = heap st0 !! l.
Proof.
  intros _ Hlive. split.
  - unfold get_vars. rewrite bind_run. unfold dict_new at 1. cbv beta iota zeta.
    fold (entities_of entities).
    assert (vars ≠ fresh (dom (heap st))) as Hne.
    { intros ->. rewrite fresh_heap in Hlive. by destruct Hlive. }
    rewrite for_each_frame; cbn; rewrite ?lookup_insert_ne; done.
  - intros data st0 l Hne.
    rewrite connection_defaults_run. cbn. by rewrite lookup_insert_ne.
Qed.

(** ** Errors *)

(** The loop never raises once the accumulator has [ansible_connection]. *)
Lemma domain_loop_ok (name : string) :
  ∀ (todo : list string) (folder : string) (data : loc) (prev_part : string)
    (st : state),
    is_Some (deref st data !! "ansible_connection") →
    ∃ r st', domain_loop name todo folder data prev_part st = (Ok r, st').
Proof.
  induction todo as [|part rest IH]; intros folder data prev_part st [c Hc].
  { by eexists _, _. }
  rewrite domain_loop_cons, bind_run.
  assert (∃ folder',
            (if String.eqb (part +:+ prev_part) name
             then conn ← dict_getitem data "ansible_connection";
                  mret (py_str conn +:+ "/hosts")
             else mret folder) st = (Ok folder', st)) as [folder' ->].
  { destruct (String.eqb _ _); [|by eexists].
    rewrite bind_run. unfold dict_getitem at 1. rewrite Hc. by eexists. }
  rewrite bind_run, read_vault_run, bind_run, combine_vars_run.
  apply IH. rewrite deref_combine_state, deref_read_state.
  apply lookup_union_is_Some. right. by exists c.
Qed.

(** [_get_vars] raises for an entity of an unknown type, and for a Host
    where [socket] has no [inet_pton]; it raises nothing else. *)
Lemma get_vars_raises (data : loc) (e : entity) (st st' : state) (err : exn) :
  _get_vars data e st = (Raise err, st') →
  (∃ type_name,
     e = Other type_name
     ∧ err = AnsibleInternalError unrecognised (ObjType type_name))
  ∨ (inet_pton socket = None ∧ err = AttributeError "inet_pton").
Proof.
  destruct e as [name|name vars|type_name].
  - unfold _get_vars.
    destruct (last_line_lookups "groups" name data st) as (r & st1 & -> & _).
    done.
  - rewrite get_vars_host_run.
    set (st1 := set_heap _ st). set (conn := default VNone _).
    assert (is_Some (deref st1 data !! "ansible_connection")) as Hconn.
    { unfold st1. rewrite deref_insert, decide_True by done.
      apply defaults_of_connection. }
    destruct (_is_valid_ip_address name) as [[|]|err'] eqn:Hip.
    + destruct (last_line_lookups (py_str conn +:+ "/hosts") name data st1)
        as (r & st2 & -> & _). done.
    + rewrite length_str_split.
      destruct (str_count "." name) as [|n].
      * destruct (last_line_lookups (py_str conn +:+ "/hosts") name data st1)
          as (r & st2 & -> & _). done.
      * change (S (S n) =? 1)%nat with false.
        change (1 <? S (S n))%nat with true. cbv iota.
        destruct (domain_loop_ok name (rev (str_split "." name))
                    (py_str conn +:+ "/domains") data "" st1 Hconn)
          as (r & st2 & -> ). done.
    + intros [= -> _]. right.
      unfold _is_valid_ip_address, _is_valid_ipv6_address in Hip.
      destruct (_is_valid_ipv4_address name); [done|].
      destruct (inet_pton socket); [done|]. by injection Hip as <-.
  - intros [= <- _]. left. by exists type_name.
Qed.

Lemma for_each_aborts (type_name : string) (entities : list entity) :
  ∀ (data : loc) (st : state),
    Other type_name ∈ entities →
    ∃ err st',
      for_each data entities st = (Raise err, st')
      ∧ (is_Some (inet_pton socket) →
         ∃ t, Other t ∈ entities
              ∧ err = AnsibleInternalError unrecognised (ObjType t)).
Proof.
  induction entities as [|e es IH]; intros data st Hin.
  { by apply elem_of_nil in Hin. }
  cbn [for_each]. rewrite bind_run.
  destruct (_get_vars data e st) as [[data'|err] st1] eqn:Hrun.
  - assert (Other type_name ∈ es) as Hes.
    { apply elem_of_cons in Hin as [<-|Hes]; [|done].
      by cbn in Hrun. }
    destruct (IH data' st1 Hes) as (err & st' & -> & Herr).
    exists err, st'. split; [done|]. intros Hpton.
    destruct (Herr Hpton) as (t & Ht & ->). exists t. split; [by right|done].
  - exists err, st1. split; [done|]. intros [pton Hpton].
    apply get_vars_raises in Hrun as [(t & -> & ->)|[Hnone _]].
    + exists t. split; [left|done].
    + congruence.
Qed.

(** C6. An entity that is neither a Group nor a Host makes [_get_vars] raise
    the internal error that carries the entity's type, and [get_vars] on a
    batch that contains such an entity raises: no mapping is returned. With
    [inet_pton] at hand nothing else can raise, so the error of the batch
    then is the internal error of one of its unrecognised entities. *)
Theorem unrecognised_entity_aborts (type_name : string)
    (entities : entities_arg) (st : state) :
  Other type_name ∈ entities_of entities →
  (∀ data st0,
     _get_vars data (Other type_name) st0 =
       (Raise (AnsibleInternalError unrecognised (ObjType type_name)), st0))
  ∧ ∃ err st',
      get_vars entities st = (Raise err, st')
      ∧ (is_Some (inet_pton socket) →
         ∃ t, Other t ∈ entities_of entities
              ∧ err = AnsibleInternalError unrecognised (ObjType t)).
Proof.
  intros Hin. split; [done|].
  unfold get_vars. rewrite bind_run. unfold dict_new at 1. cbv beta iota zeta.
  fold (entities_of entities). by apply for_each_aborts with type_name.
Qed.

(** C7 (amended). Splitting a host name on ['.'] never yields zero parts
    (the empty name yields the one part [""]), so no Host raises the
    structural internal error; a Host with the empty name is resolved with
    the single lookup (connection type + "/hosts", ""), unless [socket] has
    no [inet_pton] and the run ends in [AttributeError]. *)
Theorem host_name_parts_nonempty (st : state) (data vars : loc) (name : string) :
  (1 ≤ length (str_split "." name))%nat
  ∧ str_split "." "" = [""]
  ∧ (∀ message obj,
       (_get_vars data (Host name vars) st).1
         ≠ Raise (AnsibleInternalError message obj))
  ∧ match (_get_vars data (Host "" vars) st).1 with
    | Ok _ =>
        lookups (_get_vars data (Host "" vars) st).2 =
          lookups st ++ [(connection_type st data vars +:+ "/hosts", "")]
    | Raise err => err = AttributeError "inet_pton"
    end.
Proof.
  split; [rewrite length_str_split; lia|]. split; [done|]. split.
  - intros message obj Hraise.
    destruct (_get_vars data (Host name vars) st) as [r st'] eqn:Hrun.
    cbn in Hraise. subst r.
    by apply get_vars_raises in Hrun as [(t & ? & _)|[_ ?]].
  - destruct (_get_vars data (Host "" vars) st) as [[r|err] st'] eqn:Hrun; cbn.
    + rewrite get_vars_host_run in Hrun. rewrite connection_type_eq.
      set (st1 := set_heap _ st) in Hrun.
      set (conn := default VNone _) in *.
      destruct (last_line_lookups (py_str conn +:+ "/hosts") "" data st1)
        as (r' & st2 & Hlast & Hlook).
      change (length (str_split "." "") =? 1)%nat with true in Hrun.
      cbv iota in Hrun.
      destruct (_is_valid_ip_address "") as [[|]|err]; [| |done];
        rewrite Hlast in Hrun; by injection Hrun as <- <-.
    + by apply get_vars_raises in Hrun as [(t & ? & _)|[_ ?]].
Qed.

(** C10. Called with a single entity that is not a list, [get_vars] wraps
    it into a one-element list: the run is the run on the singleton list,
    which is [_get_vars] for that entity on a new, empty accumulator. *)
Theorem get_vars_single_entity (e : entity) (st : state) :
  entities_of (NotAList e) = [e]
  ∧ get_vars (NotAList e) st = get_vars (EntityList [e]) st
  ∧ get_vars (NotAList e) st = (data ← dict_new; _get_vars data e) st.
Proof.
  split; [done|]. split; [done|].
  unfold get_vars. cbn [for_each]. rewrite !bind_run.
  unfold dict_new at 1 2. cbv beta iota zeta. rewrite bind_run.
  by destruct (_get_vars _ e _) as [[data|err] st'].
Qed.

(** ** The cache agrees with the store throughout a run *)

Lemma domain_loop_cache_consistent (name : string) :
  ∀ (todo : list string) (folder : string) (data : loc) (prev_part : string)
    (st : state),
    cache_consistent st →
    cache_consistent (domain_loop name todo folder data prev_part st).2.
Proof.
  induction todo as [|part rest IH]; intros folder data prev_part st Hst;
    [done|].
  rewrite domain_loop_cons, bind_run.
  destruct (loop_folder_run (String.eqb (part +:+ prev_part) name)
              data folder st) as [[folder'|err] ->]; [|done].
  rewrite bind_run, read_vault_run, bind_run, combine_vars_run.
  apply IH. by apply cache_consistent_read_state.
Qed.

Lemma get_vars_entity_cache_consistent (data : loc) (e : entity) (st : state) :
  cache_consistent st → cache_consistent (_get_vars data e st).2.
Proof.
  intros Hst.
  assert (∀ folder name d st0,
            cache_consistent st0 →
            cache_consistent
              ((secret ← _read_vault folder name; combine_vars d secret) st0).2)
    as Hlast.
  { intros folder name d st0 H0.
    rewrite bind_run, read_vault_run, combine_vars_run.
    by apply cache_consistent_read_state. }
  destruct e as [name|name vars|type_name]; [by apply Hlast| |done].
  rewrite get_vars_host_run.
  destruct (_is_valid_ip_address name) as [[|]|err]; [by apply Hlast| |done].
  destruct (length (str_split "." name) =? 1)%nat; [by apply Hlast|].
  destruct (1 <? length (str_split "." name))%nat; [|done].
  by apply domain_loop_cache_consistent.
Qed.

(** Every state [get_vars] reaches from a consistent cache, an empty one in
    particular, has a consistent cache. *)
Lemma get_vars_cache_consistent (entities : entities_arg) (st : state) :
  cache_consistent st → cache_consistent (get_vars entities st).2.
Proof.
  intros Hst. unfold get_vars. rewrite bind_run. unfold dict_new at 1.
  cbv beta iota zeta. fold (entities_of entities).
  set (st0 := set_heap _ st).
  assert (cache_consistent st0) as H0 by done.
  clearbody st0. clear Hst. generalize (fresh (dom (heap st))) as data.
  induction (entities_of entities) as [|e es IH] in st0, H0 |- *;
    intros data; [done|].
  cbn [for_each]. rewrite bind_run.
  pose proof (get_vars_entity_cache_consistent data e st0 H0) as H1.
  destruct (_get_vars data e st0) as [[data'|err] st1]; [|done].
  by apply IH.
Qed.

Lemma cache_consistent_empty (st : state) :
  vault_cache st = ∅ → cache_consistent st.
Proof. intros Hempty key cached. by rewrite Hempty, lookup_empty. Qed.

(** ** The cache and the logs along a run *)

Lemma vault_part_set_heap (h : gmap loc dict) (st : state) :
  vault_part (set_heap h st) = vault_part st.
Proof. reflexivity. Qed.

Lemma vault_view_vault_part (st1 st2 : state) (key : string) :
  vault_part st1 = vault_part st2 → vault_view st1 key = vault_view st2 key.
Proof. intros [= Hc _ _]. unfold vault_view. by rewrite Hc. Qed.

Lemma read_state_vault_part (folder name : string) (st1 st2 : state) :
  vault_part st1 = vault_part st2 →
  vault_part (read_state folder name st1) = vault_part (read_state folder name st2).
Proof.
  intros Hpart. pose proof (vault_view_vault_part st1 st2) as Hview.
  injection Hpart as Hc Hr Hl. unfold vault_part, read_state. cbn.
  by rewrite Hview, Hc, Hr, Hl by (unfold vault_part; congruence).
Qed.

Lemma read_all_cons (k : string * string) (keys : list (string * string))
    (st : state) :
  read_all (k :: keys) st = read_all keys (read_state k.1 k.2 st).
Proof. reflexivity. Qed.

Lemma read_all_vault_part (keys : list (string * string)) :
  ∀ st1 st2,
    vault_part st1 = vault_part st2 →
    vault_part (read_all keys st1) = vault_part (read_all keys st2).
Proof.
  induction keys as [|k keys IH]; intros st1 st2 Hpart; [done|].
  rewrite !read_all_cons. apply IH. by apply read_state_vault_part.
Qed.

Lemma read_all_app (keys1 keys2 : list (string * string)) (st : state) :
  read_all (keys1 ++ keys2) st = read_all keys2 (read_all keys1 st).
Proof. apply foldl_app. Qed.

Lemma lookups_read_all (keys : list (string * string)) :
  ∀ st, lookups (read_all keys st) = lookups st ++ keys.
Proof.
  induction keys as [|[f n] keys IH]; intros st.
  - cbn. by rewrite app_nil_r.
  - rewrite read_all_cons, IH. cbn. by rewrite <- app_assoc.
Qed.

Lemma vault_view_read_all (keys : list (string * string)) (key : string) :
  ∀ st, vault_view (read_all keys st) key = vault_view st key.
Proof.
  induction keys as [|k keys IH]; intros st; [done|].
  rewrite read_all_cons, IH. apply vault_view_read_state.
Qed.

Lemma merge_layers_app (view : string → dict) (D : dict)
    (keys1 keys2 : list (string * string)) :
  merge_layers view D (keys1 ++ keys2) =
    merge_layers view (merge_layers view D keys1) keys2.
Proof. apply foldl_app. Qed.

Lemma merge_layers_ext (view1 view2 : string → dict)
    (keys : list (string * string)) :
  (∀ key, view1 key = view2 key) →
  ∀ D, merge_layers view1 D keys = merge_layers view2 D keys.
Proof.
  intros Hview. induction keys as [|k keys IH]; intros D; [done|].
  cbn [merge_layers foldl]. rewrite Hview. apply IH.
Qed.

Lemma merge_layers_connection (view : string → dict)
    (keys : list (string * string)) :
  ∀ D, is_Some (D !! "ansible_connection") →
       is_Some (merge_layers view D keys !! "ansible_connection").
Proof.
  induction keys as [|k keys IH]; intros D HD; [done|].
  cbn [merge_layers foldl]. apply IH, lookup_union_is_Some. by right.
Qed.

(** ** A run as a fold over its lookups *)

(** The loop of a dotted name, whatever the domain records hold: every
    domain record is merged in turn, and the [hosts] folder of the last
    lookup is formed from the accumulator as merged so far. *)
Lemma domain_loop_resolve (name folder : string) :
  ∀ (todo seen D' : list string) (data : loc) (st : state),
    emitted todo seen = D' ++ [name] →
    (∀ s, s ∈ D' → s ≠ name) →
    is_Some (deref st data !! "ansible_connection") →
    let domains := map (λ s, (folder, s)) D' in
    let merged := merge_layers (vault_view st) (deref st data) domains in
    let keys :=
      domains
      ++ [(py_str (default VNone (merged !! "ansible_connection")) +:+ "/hosts",
           name)] in
    ∃ r st',
      domain_loop name todo folder data (prev_of seen) st = (Ok r, st')
      ∧ deref st' r = merge_layers (vault_view st) (deref st data) keys
      ∧ vault_part st' = vault_part (read_all keys st).
Proof.
  induction todo as [|part rest IH]; intros seen D' data st Hem Hne [c Hc].
  { by destruct D'. }
  rewrite domain_loop_cons, <- join_dot_prev.
  change ("." +:+ join_dot (part :: seen)) with (prev_of (part :: seen)).
  destruct D' as [|s D'']; cbn [emitted app] in Hem.
  - assert (join_dot (part :: seen) = name ∧ emitted rest (part :: seen) = [])
      as [Hname Hrest] by (by inversion Hem).
    apply emitted_nil_inv in Hrest as ->.
    rewrite Hname, String.eqb_refl.
    rewrite !bind_run. unfold dict_getitem at 1. rewrite Hc.
    unfold mret at 1, M_ret at 1. cbv beta iota.
    rewrite bind_run, read_vault_run, bind_run, combine_vars_run.
    cbn [map app merge_layers foldl]. rewrite Hc. cbn [default].
    eexists _, _. split; [reflexivity|]. split; [|done].
    by rewrite deref_combine_state, deref_read_state.
  - assert (s = join_dot (part :: seen)
            ∧ emitted rest (part :: seen) = D'' ++ [name])
      as [-> Hrest] by (by inversion Hem).
    assert (String.eqb (join_dot (part :: seen)) name = false) as ->.
    { apply String.eqb_neq, Hne. left. }
    rewrite bind_run. unfold mret at 1, M_ret at 1. cbv beta iota.
    rewrite bind_run, read_vault_run, bind_run, combine_vars_run.
    set (s := join_dot (part :: seen)).
    set (st1 := read_state folder s st).
    set (secret := vault_view st (vault_key folder s)).
    set (st2 := combine_state data secret st1).
    destruct (IH (part :: seen) D'' (fresh (dom (heap st1))) st2)
      as (r & st' & Hrun & Hdict & Hpart).
    + done.
    + intros s' Hin. apply Hne. by right.
    + unfold st2. rewrite deref_combine_state.
      apply lookup_union_is_Some. right. by exists c.
    + assert (∀ key, vault_view st2 key = vault_view st key) as Hview.
      { intros key. unfold st2, combine_state, st1.
        rewrite vault_view_set_heap. apply vault_view_read_state. }
      assert (deref st2 (fresh (dom (heap st1))) = secret ∪ deref st data)
        as Hdata by (unfold st2; by rewrite deref_combine_state).
      rewrite Hdata in Hdict, Hpart.
      repeat match goal with
             | H : context [merge_layers (vault_view st2) ?D ?ks] |- _ =>
                 rewrite (merge_layers_ext _ (vault_view st) ks Hview D) in H
             end.
      exists r, st'. split; [exact Hrun|]. split; [exact Hdict|].
      rewrite Hpart. cbn [map app]. rewrite read_all_cons.
      by apply read_all_vault_part.
Qed.

Lemma last_line_resolve (folder name : string) (data : loc) (st : state) :
  ∃ r st',
    (secret ← _read_vault folder name; combine_vars data secret) st = (Ok r, st')
    ∧ deref st' r = vault_view st (vault_key folder name) ∪ deref st data
    ∧ vault_part st' = vault_part (read_state folder name st).
Proof.
  rewrite bind_run, read_vault_run, combine_vars_run.
  eexists _, _. split; [reflexivity|]. split; [|done].
  by rewrite deref_combine_state, deref_read_state.
Qed.

(** [_get_vars] computes [resolve_entity]: its lookups are the keys, in
    order, its answer is the mapping, and it raises where that raises. *)
Lemma get_vars_entity_resolve (data : loc) (e : entity) (st : state) :
  ∃ r st',
    _get_vars data e st = (r, st')
    ∧ vault_part st' =
        vault_part
          (read_all (resolve_entity (vault_view st) (deref st) (deref st data) e).1
             st)
    ∧ match (resolve_entity (vault_view st) (deref st) (deref st data) e).2, r with
      | Ok D', Ok l => deref st' l = D'
      | Raise x, Raise y => x = y
      | _, _ => False
      end.
Proof.
  destruct e as [name|name vars|type_name].
  - destruct (last_line_resolve "groups" name data st)
      as (r & st' & Hrun & Hdict & Hpart).
    exists (Ok r), st'. by split.
  - rewrite get_vars_host_run. cbn [resolve_entity].
    set (Dd := defaults_of (deref st vars) (deref st data)).
    set (st1 := set_heap (<[data := Dd]> (heap st)) st).
    assert (deref st1 data = Dd) as Hdata.
    { unfold st1. rewrite deref_insert. by rewrite decide_True. }
    assert (∀ folder,
              ∃ r st',
                (secret ← _read_vault folder name; combine_vars data secret) st1
                  = (Ok r, st')
                ∧ vault_part st' = vault_part (read_all [(folder, name)] st)
                ∧ deref st' r = merge_layers (vault_view st) Dd [(folder, name)])
      as Hlast.
    { intros folder.
      destruct (last_line_resolve folder name data st1)
        as (r & st' & Hrun & Hdict & Hpart).
      exists r, st'. split; [done|]. split; [done|].
      by rewrite Hdict, Hdata. }
    destruct (_is_valid_ip_address name) as [[|]|err]; cbn [fst snd].
    + unfold host_keys. cbn [orb].
      destruct (Hlast (py_str (default VNone (Dd !! "ansible_connection"))
                       +:+ "/hosts")) as (r & st' & Hrun & Hpart & Hdict).
      by exists (Ok r), st'.
    + unfold host_keys. cbn [orb]. rewrite length_str_split.
      destruct (str_count "." name) as [|n] eqn:Hdots.
      * destruct (Hlast (py_str (default VNone (Dd !! "ansible_connection"))
                         +:+ "/hosts")) as (r & st' & Hrun & Hpart & Hdict).
        by exists (Ok r), st'.
      * change (S (S n) =? 1)%nat with false.
        change (1 <? S (S n))%nat with true.
        change (S n =? 0)%nat with false. cbv iota.
        destruct (domain_loop_resolve name
                    (py_str (default VNone (Dd !! "ansible_connection"))
                     +:+ "/domains")
                    (rev (str_split "." name)) [] (domain_suffixes name)
                    data st1) as (r & st' & Hrun & Hdict & Hpart).
        { apply emitted_str_split. }
        { intros s Hs ->. apply domain_suffixes_shorter in Hs. lia. }
        { rewrite Hdata. apply defaults_of_connection. }
        rewrite Hdata in Hdict, Hpart.
        exists (Ok r), st'. split; [exact Hrun|]. split; [|exact Hdict].
        rewrite Hpart. by apply read_all_vault_part.
    + by exists (Raise err), st1.
  - by eexists _, _.
Qed.

Lemma host_keys_ext (view1 view2 : string → dict) (Dd : dict) (is_ip : bool)
    (name : string) :
  (∀ key, view1 key = view2 key) →
  host_keys view1 Dd is_ip name = host_keys view2 Dd is_ip name.
Proof.
  intros Hview. unfold host_keys.
  by rewrite (merge_layers_ext view1 view2 _ Hview).
Qed.

Lemma elem_of_host_vars (name : string) (vars : loc) (entities : list entity) :
  Host name vars ∈ entities → vars ∈ host_vars entities.
Proof.
  intros Hin. unfold host_vars. apply list_elem_of_omap.
  by exists (Host name vars).
Qed.

Lemma host_vars_cons (e : entity) (entities : list entity) (vars : loc) :
  vars ∈ host_vars entities → vars ∈ host_vars (e :: entities).
Proof.
  unfold host_vars. rewrite !list_elem_of_omap.
  intros (x & Hx & Hvars). exists x. split; [by right|done].
Qed.

Lemma resolve_entity_ext (view1 view2 : string → dict)
    (vars_of1 vars_of2 : loc → dict) (D : dict) (e : entity) :
  (∀ key, view1 key = view2 key) →
  (∀ vars, vars ∈ host_vars [e] → vars_of1 vars = vars_of2 vars) →
  resolve_entity view1 vars_of1 D e = resolve_entity view2 vars_of2 D e.
Proof.
  intros Hview Hvars. destruct e as [name|name vars|type_name]; [|  |done].
  - cbn. by rewrite Hview.
  - cbn [resolve_entity]. rewrite (Hvars vars).
    + destruct (_is_valid_ip_address name) as [is_ip|err]; [|done].
      rewrite (host_keys_ext view1 view2 _ _ _ Hview).
      by rewrite (merge_layers_ext view1 view2 _ Hview).
    + apply (elem_of_host_vars name). left.
Qed.

Lemma resolve_all_ext (view1 view2 : string → dict)
    (vars_of1 vars_of2 : loc → dict) (entities : list entity) :
  (∀ key, view1 key = view2 key) →
  (∀ vars, vars ∈ host_vars entities → vars_of1 vars = vars_of2 vars) →
  ∀ D, resolve_all view1 vars_of1 D entities
       = resolve_all view2 vars_of2 D entities.
Proof.
  intros Hview. induction entities as [|e es IH]; intros Hvars D; [done|].
  cbn [resolve_all].
  rewrite (resolve_entity_ext view1 view2 vars_of1 vars_of2 D e Hview).
  - destruct (resolve_entity view2 vars_of2 D e) as [keys [D'|err]]; [|done].
    rewrite IH; [done|]. intros vars Hin. by apply Hvars, host_vars_cons.
  - intros vars Hin. apply Hvars. unfold host_vars in *.
    apply list_elem_of_omap in Hin as (x & Hx%list_elem_of_singleton & Hv).
    subst x. apply list_elem_of_omap. exists e. split; [left|done].
Qed.

(** The loop of [get_vars] computes [resolve_all], as long as no host's
    [vars] is the accumulator. *)
Lemma for_each_resolve (entities : list entity) :
  ∀ (data : loc) (st : state),
    (∀ vars, vars ∈ host_vars entities →
             vars ≠ data ∧ is_Some (heap st !! vars)) →
    ∃ r st',
      for_each data entities st = (r, st')
      ∧ vault_part st' =
          vault_part
            (read_all
               (resolve_all (vault_view st) (deref st) (deref st data) entities).1
               st)
      ∧ match (resolve_all (vault_view st) (deref st) (deref st data) entities).2,
              r with
        | Ok D', Ok l => deref st' l = D'
        | Raise x, Raise y => x = y
        | _, _ => False
        end.
Proof.
  induction entities as [|e es IH]; intros data st Hvars.
  { by exists (Ok data), st. }
  cbn [for_each resolve_all]. rewrite bind_run.
  destruct (get_vars_entity_resolve data e st) as (r1 & st1 & Hrun & Hpart & Hres).
  pose proof (get_vars_frame data e st) as Hframe. unfold wp in Hframe.
  rewrite Hrun in *. cbn [fst snd] in Hframe. destruct Hframe as [Hw Hnew].
  destruct (resolve_entity (vault_view st) (deref st) (deref st data) e)
    as [keys [D'|err]]; cbn [fst snd] in *.
  - destruct r1 as [l|]; [|done].
    assert (∀ vars, vars ∈ host_vars es →
                    vars ≠ l ∧ is_Some (heap st1 !! vars)) as Hvars1.
    { intros vars Hin.
      destruct (Hvars vars (host_vars_cons e es vars Hin)) as [Hne Hlive].
      split.
      - destruct (Hnew l eq_refl) as [->|Hl]; [done|].
        intros ->. rewrite Hl in Hlive. by destruct Hlive.
      - by rewrite Hw. }
    destruct (IH l st1 Hvars1) as (r & st' & Hrun' & Hpart' & Hres').
    assert (∀ key, vault_view st1 key = vault_view st key) as Hview.
    { intros key. rewrite (vault_view_vault_part _ _ key Hpart).
      apply vault_view_read_all. }
    assert (∀ vars, vars ∈ host_vars es → deref st1 vars = deref st vars)
      as Hderef.
    { intros vars Hin.
      destruct (Hvars vars (host_vars_cons e es vars Hin)) as [Hne Hlive].
      unfold deref. by rewrite Hw. }
    rewrite (resolve_all_ext _ _ _ _ es Hview Hderef), Hres in Hpart', Hres'.
    destruct (resolve_all (vault_view st) (deref st) D' es) as [keys' res].
    cbn [fst snd] in *.
    exists r, st'. split; [done|]. split; [|done].
    rewrite Hpart', read_all_app. by apply read_all_vault_part.
  - destruct r1 as [|y]; [done|]. subst y.
    by exists (Raise err), st1.
Qed.

Lemma get_vars_resolve_run (entities : entities_arg) (st : state) :
  (∀ vars, vars ∈ host_vars (entities_of entities) → is_Some (heap st !! vars)) →
  ∃ r st',
    get_vars entities st = (r, st')
    ∧ vault_part st' =
        vault_part
          (read_all
             (resolve_all (vault_view st) (deref st) ∅ (entities_of entities)).1
             st)
    ∧ match (resolve_all (vault_view st) (deref st) ∅ (entities_of entities)).2,
            r with
      | Ok D', Ok l => deref st' l = D'
      | Raise x, Raise y => x = y
      | _, _ => False
      end.
Proof.
  intros Hlive. unfold get_vars. rewrite bind_run. unfold dict_new at 1.
  cbv beta iota zeta. fold (entities_of entities).
  set (data := fresh (dom (heap st))).
  set (st0 := set_heap (<[data := ∅]> (heap st)) st).
  assert (∀ vars, vars ∈ host_vars (entities_of entities) → vars ≠ data)
    as Hne.
  { intros vars Hin ->. apply Hlive in Hin. unfold data in Hin.
    rewrite fresh_heap in Hin. by destruct Hin. }
  destruct (for_each_resolve (entities_of entities) data st0)
    as (r & st' & Hrun & Hpart & Hres).
  { intros vars Hin. split; [by apply Hne|].
    unfold st0. cbn. rewrite lookup_insert_ne by (by apply not_eq_sym, Hne).
    by apply Hlive. }
  assert (deref st0 data = ∅) as Hdata.
  { unfold st0. rewrite deref_insert. by rewrite decide_True. }
  assert (∀ vars, vars ∈ host_vars (entities_of entities) →
                  deref st0 vars = deref st vars) as Hderef.
  { intros vars Hin. unfold st0. rewrite deref_insert.
    rewrite decide_False; [done|]. by apply not_eq_sym, Hne. }
  assert (∀ key, vault_view st0 key = vault_view st key) as Hview by done.
  rewrite Hdata, (resolve_all_ext _ _ _ _ _ Hview Hderef) in Hpart, Hres.
  exists r, st'. split; [done|]. split; [|done].
  rewrite Hpart. by apply read_all_vault_part.
Qed.

(** ** Invariants of the cache *)

Lemma for_each_read_all (entities : list entity) :
  ∀ (data : loc) (st : state),
    ∃ keys,
      vault_part (for_each data entities st).2 = vault_part (read_all keys st).
Proof.
  induction entities as [|e es IH]; intros data st; [by exists []|].
  cbn [for_each]. rewrite bind_run.
  destruct (get_vars_entity_resolve data e st) as (r1 & st1 & -> & Hpart & _).
  set (keys := (resolve_entity _ _ _ e).1) in Hpart.
  destruct r1 as [l|err]; [|by exists keys].
  destruct (IH l st1) as [keys' Hpart'].
  exists (keys ++ keys'). rewrite Hpart', read_all_app.
  by apply read_all_vault_part.
Qed.

(** Whatever the batch, [get_vars] works on the cache and the store through
    [_read_vault] calls only. *)
Lemma get_vars_read_all (entities : entities_arg) (st : state) :
  ∃ keys,
    vault_part (get_vars entities st).2 = vault_part (read_all keys st).
Proof.
  unfold get_vars. rewrite bind_run. unfold dict_new at 1.
  cbv beta iota zeta. fold (entities_of entities).
  set (st0 := set_heap _ st).
  destruct (for_each_read_all (entities_of entities)
              (fresh (dom (heap st))) st0) as [keys Hpart].
  exists keys. rewrite Hpart. by apply read_all_vault_part.
Qed.

Lemma read_state_cache_kept (folder name key : string) (cached : dict)
    (st : state) :
  vault_cache st !! key = Some cached →
  vault_cache (read_state folder name st) !! key = Some cached.
Proof.
  intros Hc. unfold read_state. cbn.
  destruct (decide (vault_key folder name = key)) as [<-|Hne].
  - rewrite lookup_insert_eq. unfold vault_view. by rewrite Hc.
  - by rewrite lookup_insert_ne.
Qed.

Lemma read_all_cache_kept (keys : list (string * string)) (key : string)
    (cached : dict) :
  ∀ st,
    vault_cache st !! key = Some cached →
    vault_cache (read_all keys st) !! key = Some cached.
Proof.
  induction keys as [|k keys IH]; intros st Hc; [done|].
  rewrite read_all_cons. by apply IH, read_state_cache_kept.
Qed.

Lemma read_all_cached (keys : list (string * string)) :
  ∀ st k,
    k ∈ keys → is_Some (vault_cache (read_all keys st) !! vault_key k.1 k.2).
Proof.
  induction keys as [|k0 keys IH]; intros st k Hin.
  { by apply elem_of_nil in Hin. }
  rewrite read_all_cons. apply elem_of_cons in Hin as [->|Hin]; [|by apply IH].
  exists (vault_view st (vault_key k0.1 k0.2)).
  apply read_all_cache_kept. unfold read_state. cbn. apply lookup_insert_eq.
Qed.

(** Lookups of cached keys read nothing and leave the cache as it is. *)
Lemma read_all_hits (keys : list (string * string)) :
  ∀ st,
    (∀ k, k ∈ keys → is_Some (vault_cache st !! vault_key k.1 k.2)) →
    vault_cache (read_all keys st) = vault_cache st
    ∧ store_reads (read_all keys st) = store_reads st.
Proof.
  induction keys as [|k keys IH]; intros st Hcached; [done|].
  rewrite read_all_cons.
  destruct (Hcached k) as [cached Hc]; [left|].
  assert (vault_cache (read_state k.1 k.2 st) = vault_cache st
          ∧ store_reads (read_state k.1 k.2 st) = store_reads st) as [Hc1 Hr1].
  { unfold read_state, vault_view. cbn. rewrite Hc.
    split; [by apply insert_id | apply app_nil_r]. }
  destruct (IH (read_state k.1 k.2 st)) as [Hc2 Hr2].
  { intros k' Hin. rewrite Hc1. apply Hcached. by right. }
  by rewrite Hc2, Hr2.
Qed.

Lemma vault_path_inj (key1 key2 : string) :
  vault_path key1 = vault_path key2 → key1 = key2.
Proof. unfold vault_path. apply (inj (String.app _)). Qed.

Lemma reads_once_read_state (folder name : string) (st : state) :
  reads_once st → reads_once (read_state folder name st).
Proof.
  intros [Hnodup Hpaths]. unfold reads_once, read_state. cbn.
  set (key := vault_key folder name).
  assert (∀ path,
            path ∈ store_reads st →
            ∃ key', path = vault_path key'
                    ∧ is_Some (<[key := vault_view st key]> (vault_cache st) !! key'))
    as Hold.
  { intros path Hin. destruct (Hpaths path Hin) as (key' & -> & Hc).
    exists key'. split; [done|]. apply lookup_insert_is_Some'. by right. }
  destruct (vault_cache st !! key) as [cached|] eqn:Hmiss.
  - rewrite app_nil_r. by split.
  - split.
    + apply NoDup_app. split; [done|]. split; [|apply NoDup_singleton].
      intros path Hin ->%list_elem_of_singleton.
      destruct (Hpaths _ Hin) as (key' & <-%vault_path_inj & [? Hc]).
      congruence.
    + intros path [Hin| ->%list_elem_of_singleton]%elem_of_app; [by apply Hold|].
      exists key. split; [done|]. rewrite lookup_insert_eq. eauto.
Qed.

Lemma reads_once_read_all (keys : list (string * string)) :
  ∀ st, reads_once st → reads_once (read_all keys st).
Proof.
  induction keys as [|k keys IH]; intros st Hst; [done|].
  rewrite read_all_cons. by apply IH, reads_once_read_state.
Qed.

Lemma reads_once_vault_part (st1 st2 : state) :
  vault_part st1 = vault_part st2 → reads_once st1 → reads_once st2.
Proof. intros [= Hc Hr _]. unfold reads_once. by rewrite Hc, Hr. Qed.

Lemma lookups_vault_part (st st' : state) (keys : list (string * string)) :
  vault_part st' = vault_part (read_all keys st) →
  lookups st' = lookups st ++ keys.
Proof. intros [= _ _ ->]. apply lookups_read_all. Qed.

Lemma get_vars_live_kept (entities : entities_arg) (st : state) (l : loc) :
  is_Some (heap st !! l) →
  heap (get_vars entities st).2 !! l = heap st !! l.
Proof.
  intros Hlive. unfold get_vars. rewrite bind_run. unfold dict_new at 1.
  cbv beta iota zeta. fold (entities_of entities).
  assert (l ≠ fresh (dom (heap st))) as Hne.
  { intros ->. rewrite fresh_heap in Hlive. by destruct Hlive. }
  rewrite for_each_frame; cbn; rewrite ?lookup_insert_ne; done.
Qed.

(** ** Groups *)

(** X1. For every Group, whatever its name, [_get_vars] never raises and
    makes the one lookup ("groups", name); it answers a new dict, the record
    over the accumulator, and writes no dict that was live before. *)
Theorem group_single_lookup (st : state) (data : loc) (name : string) :
  ∃ r st',
    _get_vars data (Group name) st = (Ok r, st')
    ∧ lookups st' = lookups st ++ [("groups", name)]
    ∧ deref st' r = vault_view st (vault_key "groups" name) ∪ deref st data
    ∧ heap st !! r = None
    ∧ preserves st st'.
Proof.
  destruct (last_line_resolve "groups" name data st)
    as (r & st' & Hrun & Hdict & Hpart).
  pose proof (last_line_frame "groups" name data st) as Hframe.
  unfold wp in Hframe. cbn [_get_vars]. rewrite Hrun in *.
  destruct Hframe as [Hp Hnew]. cbn [fst snd] in *.
  exists r, st'. split; [done|].
  split; [by apply (lookups_vault_part st st' [("groups", name)])|].
  split; [done|]. split; [|done].
  unfold _get_vars in Hrun.
  rewrite bind_run, read_vault_run, combine_vars_run in Hrun.
  injection Hrun as <- _. apply (fresh_heap (read_state "groups" name st)).
Qed.

(** ** Hosts *)

(** X2. A Host whose name the address check answers for resolves to the fold
    of its lookups: the records of the keys [host_keys] lists are merged, in
    order, over the connection defaults. For a dotted name that is no address
    the domain keys use the default connection type and the last key uses the
    connection type of the accumulator after the domain records are merged. *)
Theorem host_resolution_law (st : state) (data vars : loc) (name : string)
    (is_ip : bool) :
  _is_valid_ip_address name = Ok is_ip →
  let Dd := deref (connection_defaults data vars st).2 data in
  let keys := host_keys (vault_view st) Dd is_ip name in
  ∃ r st',
    _get_vars data (Host name vars) st = (Ok r, st')
    ∧ lookups st' = lookups st ++ keys
    ∧ deref st' r = merge_layers (vault_view st) Dd keys.
Proof.
  intros Hip Dd keys.
  assert (Dd = defaults_of (deref st vars) (deref st data)) as HDd.
  { unfold Dd. rewrite connection_defaults_run. cbn [snd].
    rewrite deref_insert. by rewrite decide_True. }
  destruct (get_vars_entity_resolve data (Host name vars) st)
    as (r & st' & Hrun & Hpart & Hres).
  cbn [resolve_entity] in Hpart, Hres. rewrite Hip, <- HDd in Hpart, Hres.
  cbn [fst snd] in Hpart, Hres. destruct r as [l|]; [|done].
  exists l, st'. split; [done|]. split; [|done].
  by apply lookups_vault_part.
Qed.

Lemma host_keys_last (view : string → dict) (Dd : dict) (is_ip : bool)
    (name : string) :
  ∃ front folder, host_keys view Dd is_ip name = front ++ [(folder, name)].
Proof.
  unfold host_keys.
  destruct (is_ip || (str_count "." name =? 0)%nat).
  - by exists [], (py_str (default VNone (Dd !! "ansible_connection")) +:+ "/hosts").
  - by eexists _, _.
Qed.

(** X3. The record of the host itself has the last word: the last lookup of
    a Host that resolves is for its full name, and every key of that record
    is in the answer with the record's value, whatever the host's variables,
    the accumulator and the domain records hold. *)
Theorem host_record_wins (st : state) (data vars : loc) (name : string)
    (is_ip : bool) :
  _is_valid_ip_address name = Ok is_ip →
  ∃ r st' folder,
    _get_vars data (Host name vars) st = (Ok r, st')
    ∧ last (lookups st') = Some (folder, name)
    ∧ ∀ k v,
        vault_view st (vault_key folder name) !! k = Some v →
        deref st' r !! k = Some v.
Proof.
  intros Hip.
  destruct (get_vars_entity_resolve data (Host name vars) st)
    as (r & st' & Hrun & Hpart & Hres).
  cbn [resolve_entity] in Hpart, Hres. rewrite Hip in Hpart, Hres.
  cbn [fst snd] in Hpart, Hres. destruct r as [l|]; [|done].
  apply lookups_vault_part in Hpart.
  destruct (host_keys_last (vault_view st)
              (defaults_of (deref st vars) (deref st data)) is_ip name)
    as (front & folder & Hkeys).
  rewrite Hkeys in Hpart, Hres.
  exists l, st', folder. split; [done|].
  split; [by rewrite Hpart, app_assoc, last_snoc|].
  intros k v Hk. rewrite Hres, merge_layers_app. cbn.
  by apply lookup_union_Some_l.
Qed.

Lemma length_domain_suffixes (name : string) :
  length (domain_suffixes name) = str_count "." name.
Proof.
  induction name as [|c name IH]; [done|]. cbn.
  destruct (Ascii.eqb c "."); [|done].
  rewrite length_app, IH. cbn. lia.
Qed.

(** X4. The number of lookups of a Host: one when its name is an address,
    and otherwise one per label of the name (one more than it has dots). *)
Theorem host_lookup_count (st : state) (data vars : loc) (name : string)
    (is_ip : bool) :
  _is_valid_ip_address name = Ok is_ip →
  ∃ r st',
    _get_vars data (Host name vars) st = (Ok r, st')
    ∧ length (lookups st') =
        (length (lookups st)
         + if is_ip then 1 else S (str_count "." name))%nat.
Proof.
  intros Hip.
  destruct (get_vars_entity_resolve data (Host name vars) st)
    as (r & st' & Hrun & Hpart & Hres).
  cbn [resolve_entity] in Hpart, Hres. rewrite Hip in Hpart, Hres.
  cbn [fst snd] in Hpart, Hres. destruct r as [l|]; [|done].
  apply lookups_vault_part in Hpart.
  exists l, st'. split; [done|]. rewrite Hpart, length_app. f_equal.
  unfold host_keys. destruct is_ip; [done|]. cbn [orb].
  destruct (str_count "." name) as [|n] eqn:Hdots; [done|].
  change (S n =? 0)%nat with false. cbv iota.
  rewrite length_app, length_map, length_domain_suffixes, Hdots. cbn. lia.
Qed.



(** X6. Where [socket] has no [inet_pton], the address check never answers
    [False]: a name that [inet_aton] rejects, or that does not have exactly
    three dots, makes it raise [AttributeError], and [_get_vars] on such a
    Host raises it after the connection defaults, without any lookup. *)
Theorem no_inet_pton_raises (st : state) (data vars : loc) (name : string) :
  inet_pton socket = None →
  inet_aton socket name = false ∨ str_count "." name ≠ 3%nat →
  _is_valid_ip_address name = Raise (AttributeError "inet_pton")
  ∧ _get_vars data (Host name vars) st =
      (Raise (AttributeError "inet_pton"), (connection_defaults data vars st).2)
  ∧ lookups (connection_defaults data vars st).2 = lookups st
  ∧ ∀ other, _is_valid_ip_address other ≠ Ok false.
Proof.
  intros Hpton Hname.
  assert (∀ other, _is_valid_ip_address other ≠ Ok false) as Hnever.
  { intros other. unfold _is_valid_ip_address, _is_valid_ipv6_address.
    rewrite Hpton. by destruct (_is_valid_ipv4_address other). }
  assert (_is_valid_ip_address name = Raise (AttributeError "inet_pton")) as Hip.
  { unfold _is_valid_ip_address, _is_valid_ipv4_address, _is_valid_ipv6_address.
    rewrite Hpton. destruct Hname as [->|Hdots]; [done|].
    destruct (inet_aton socket name); [|done].
    by apply Nat.eqb_neq in Hdots as ->. }
  split; [done|]. split; [|split; [|done]].
  - rewrite get_vars_host_run, Hip. by rewrite connection_defaults_run.
  - by rewrite connection_defaults_run.
Qed.



Lemma for_each_new (entities : list entity) :
  ∀ (data : loc) (st : state),
    data_or_new data st (for_each data entities st).1.
Proof.
  induction entities as [|e es IH]; intros data st.
  { intros l [= <-]. by left. }
  cbn [for_each]. rewrite bind_run.
  pose proof (get_vars_frame data e st) as Hframe. unfold wp in Hframe.
  destruct (_get_vars data e st) as [[l1|err] st1]; cbn [fst snd] in Hframe;
    destruct Hframe as [Hw Hnew]; [|by intros l].
  intros l Hl. destruct (IH l1 st1 l Hl) as [->|Hl1]; [by apply Hnew|].
  destruct (decide (l = data)) as [->|Hne]; [by left|]. right.
  destruct (heap st !! l) as [d|] eqn:Hd; [|done].
  rewrite Hw in Hl1 by (by rewrite ?Hd). congruence.
Qed.

Lemma combine_state_live (a : loc) (b : dict) (st : state) :
  is_Some (heap (combine_state a b st) !! fresh (dom (heap st))).
Proof. unfold combine_state. cbn. rewrite lookup_insert_eq. eauto. Qed.

Lemma domain_loop_live (name : string) :
  ∀ (todo : list string) (folder : string) (data : loc) (prev_part : string)
    (st : state),
    is_Some (heap st !! data) →
    wp (domain_loop name todo folder data prev_part)
       (λ r st', ∀ l, r = Ok l → is_Some (heap st' !! l)) st.
Proof.
  induction todo as [|part rest IH]; intros folder data prev_part st Hlive.
  { by intros l [= <-]. }
  rewrite domain_loop_cons. apply wp_bind.
  destruct (loop_folder_run (String.eqb (part +:+ prev_part) name)
              data folder st) as [r Hr].
  eapply wp_run; [exact Hr|]. destruct r as [folder'|e]; [|by intros l].
  eapply wp_bind, wp_run; [apply read_vault_run|]. cbv beta iota.
  eapply wp_bind, wp_run; [apply combine_vars_run|]. cbv beta iota.
  apply IH, combine_state_live.
Qed.

Lemma last_line_live (folder name : string) (data : loc) (st : state) :
  wp (secret ← _read_vault folder name; combine_vars data secret)
     (λ r st', ∀ l, r = Ok l → is_Some (heap st' !! l)) st.
Proof.
  eapply wp_bind, wp_run; [apply read_vault_run|]. cbv beta iota.
  eapply wp_run; [apply combine_vars_run|].
  intros l [= <-].
  apply (combine_state_live data _ (read_state folder name st)).
Qed.

Lemma get_vars_entity_live (data : loc) (e : entity) (st : state) :
  wp (_get_vars data e) (λ r st', ∀ l, r = Ok l → is_Some (heap st' !! l)) st.
Proof.
  destruct e as [name|name vars|type_name];
    [apply last_line_live| |by intros l].
  unfold wp. rewrite get_vars_host_run.
  set (st1 := set_heap _ st). set (conn := default VNone _).
  destruct (_is_valid_ip_address name) as [[|]|err]; [| |by intros l].
  - apply (last_line_live _ name data st1).
  - destruct (length (str_split "." name) =? 1)%nat.
    { apply (last_line_live _ name data st1). }
    destruct (1 <? length (str_split "." name))%nat; [|by intros l].
    apply (domain_loop_live name _ _ data _ st1).
    unfold st1. cbn. rewrite lookup_insert_eq. eauto.
Qed.

Lemma for_each_live (entities : list entity) :
  ∀ (data : loc) (st : state),
    is_Some (heap st !! data) →
    ∀ l, (for_each data entities st).1 = Ok l →
         is_Some (heap (for_each data entities st).2 !! l).
Proof.
  induction entities as [|e es IH]; intros data st Hlive l.
  { by intros [= <-]. }
  cbn [for_each]. rewrite bind_run.
  pose proof (get_vars_entity_live data e st) as He. unfold wp in He.
  destruct (_get_vars data e st) as [[l1|err] st1]; [|done].
  apply IH. by apply He.
Qed.

(** X8. The mapping [get_vars] answers is a dict made during the call: it is
    live afterwards and was no dict before, so neither the [vars] of an
    entity nor anything else the caller holds is handed back. *)
Theorem get_vars_answers_new_dict (entities : entities_arg) (st : state) :
  match get_vars entities st with
  | (Ok r, st') => heap st !! r = None ∧ is_Some (heap st' !! r)
  | (Raise _, _) => True
  end.
Proof.
  unfold get_vars. rewrite bind_run. unfold dict_new at 1.
  cbv beta iota zeta. fold (entities_of entities).
  set (data := fresh (dom (heap st))).
  set (st0 := set_heap (<[data := ∅]> (heap st)) st).
  pose proof (for_each_new (entities_of entities) data st0) as Hnew.
  pose proof (for_each_live (entities_of entities) data st0) as Hlive.
  destruct (for_each data (entities_of entities) st0) as [[r|err] st'];
    [|done].
  cbn [fst snd] in *. split.
  - destruct (Hnew r eq_refl) as [->|Hr]; [apply fresh_heap|].
    unfold st0 in Hr. cbn in Hr. by apply lookup_insert_None in Hr as [? _].
  - apply Hlive; [|done]. unfold st0. cbn. rewrite lookup_insert_eq. eauto.
Qed.

(** X9. The cache only grows during [get_vars]: an entry that is cached
    before the call is cached after it with the same record. *)
Theorem cache_entries_kept (entities : entities_arg) (st : state)
    (key : string) (cached : dict) :
  vault_cache st !! key = Some cached →
  vault_cache (get_vars entities st).2 !! key = Some cached.
Proof.
  intros Hc. destruct (get_vars_read_all entities st) as [keys Hpart].
  injection Hpart as -> _ _. by apply read_all_cache_kept.
Qed.

(** X10. [get_vars] reads no store path twice: from a state in which no path
    was read twice and every path read belongs to a cached key (a new process
    in particular), it reaches such a state. *)
Theorem store_paths_read_once (entities : entities_arg) (st : state) :
  reads_once st → reads_once (get_vars entities st).2.
Proof.
  intros Hst. destruct (get_vars_read_all entities st) as [keys Hpart].
  apply (reads_once_vault_part (read_all keys st)); [done|].
  by apply reads_once_read_all.
Qed.

Lemma resolve_all_groups (view : string → dict) (vars_of : loc → dict)
    (names : list string) :
  ∀ D,
    resolve_all view vars_of D (Group <$> names) =
      ((λ name, ("groups", name)) <$> names,
       Ok (merge_layers view D ((λ name, ("groups", name)) <$> names))).
Proof.
  induction names as [|name names IH]; intros D; [done|].
  cbn [fmap list_fmap resolve_all resolve_entity]. by rewrite IH.
Qed.

Lemma host_vars_groups (names : list string) : host_vars (Group <$> names) = [].
Proof. induction names as [|name names IH]; [done|]. by cbn. Qed.

(** X11. A batch of Groups resolves to the fold of the group records in the
    order of the batch, one lookup ("groups", name) each: on a key that
    several records have the later group wins, the last group over all. *)
Theorem group_batch_precedence (names : list string) (st : state) :
  let keys := (λ name, ("groups", name)) <$> names in
  ∃ r st',
    get_vars (EntityList (Group <$> names)) st = (Ok r, st')
    ∧ lookups st' = lookups st ++ keys
    ∧ deref st' r = merge_layers (vault_view st) ∅ keys
    ∧ ∀ front name k v,
        names = front ++ [name] →
        vault_view st (vault_key "groups" name) !! k = Some v →
        deref st' r !! k = Some v.
Proof.
  intros keys.
  destruct (get_vars_resolve_run (EntityList (Group <$> names)) st)
    as (r & st' & Hrun & Hpart & Hres).
  { cbn [entities_of]. rewrite host_vars_groups. by intros vars ?%elem_of_nil. }
  cbn [entities_of] in Hpart, Hres. rewrite resolve_all_groups in Hpart, Hres.
  cbn [fst snd] in Hpart, Hres. destruct r as [l|]; [|done].
  exists l, st'. split; [done|]. split; [by apply lookups_vault_part|].
  split; [done|]. intros front name k v -> Hk.
  rewrite Hres. unfold keys. rewrite fmap_app, merge_layers_app. cbn.
  by apply lookup_union_Some_l.
Qed.

(** X12. [get_vars] computes [resolve_all]: where the [vars] of the hosts of
    the batch are live dicts, its lookups are the keys of the pure fold over
    the batch, in order, it answers the mapping of the fold, and it raises
    where the fold raises, after the lookups made up to there. *)
Theorem get_vars_is_resolve_all (entities : entities_arg) (st : state) :
  (∀ vars, vars ∈ host_vars (entities_of entities) → is_Some (heap st !! vars)) →
  let resolved :=
    resolve_all (vault_view st) (deref st) ∅ (entities_of entities) in
  ∃ r st',
    get_vars entities st = (r, st')
    ∧ lookups st' = lookups st ++ resolved.1
    ∧ match resolved.2, r with
      | Ok D', Ok l => deref st' l = D'
      | Raise x, Raise y => x = y
      | _, _ => False
      end.
Proof.
  intros Hlive resolved.
  destruct (get_vars_resolve_run entities st Hlive)
    as (r & st' & Hrun & Hpart & Hres).
  exists r, st'. split; [done|]. split; [|done].
  by apply lookups_vault_part.
Qed.

(** X13. Resolving the same batch again costs no store read: the second
    [get_vars] makes the lookups of the first, finds every one in the cache,
    leaves the cache as it is, and answers a mapping with the same contents
    (or raises the same exception). *)
Theorem get_vars_again (entities : entities_arg) (st : state) :
  (∀ vars, vars ∈ host_vars (entities_of entities) → is_Some (heap st !! vars)) →
  let first := get_vars entities st in
  let second := get_vars entities first.2 in
  store_reads second.2 = store_reads first.2
  ∧ vault_cache second.2 = vault_cache first.2
  ∧ lookups second.2 =
      lookups first.2 ++ drop (length (lookups st)) (lookups first.2)
  ∧ match first.1, second.1 with
    | Ok l1, Ok l2 => deref second.2 l2 = deref first.2 l1
    | Raise x, Raise y => x = y
    | _, _ => False
    end.
Proof.
  intros Hlive first second.
  destruct (get_vars_resolve_run entities st Hlive)
    as (r1 & st1 & Hrun1 & Hpart1 & Hres1).
  assert (first = (r1, st1)) as Hfirst by done.
  assert (∀ vars, vars ∈ host_vars (entities_of entities) →
                  heap st1 !! vars = heap st !! vars) as Hkept.
  { intros vars Hin. change st1 with (r1, st1).2. rewrite <- Hrun1.
    by apply get_vars_live_kept, Hlive. }
  destruct (get_vars_resolve_run entities st1)
    as (r2 & st2 & Hrun2 & Hpart2 & Hres2).
  { intros vars Hin. rewrite Hkept by done. by apply Hlive. }
  assert (second = (r2, st2)) as Hsecond.
  { unfold second. by rewrite Hfirst. }
  assert (∀ key, vault_view st1 key = vault_view st key) as Hview.
  { intros key. rewrite (vault_view_vault_part _ _ key Hpart1).
    apply vault_view_read_all. }
  assert (∀ vars, vars ∈ host_vars (entities_of entities) →
                  deref st1 vars = deref st vars) as Hderef.
  { intros vars Hin. unfold deref. by rewrite Hkept. }
  rewrite (resolve_all_ext _ _ _ _ _ Hview Hderef) in Hpart2, Hres2.
  destruct (resolve_all (vault_view st) (deref st) ∅ (entities_of entities))
    as [keys res].
  cbn [fst snd] in *.
  assert (∀ k, k ∈ keys → is_Some (vault_cache st1 !! vault_key k.1 k.2))
    as Hcached.
  { intros k Hin. injection Hpart1 as -> _ _. by apply read_all_cached. }
  destruct (read_all_hits keys st1 Hcached) as [Hcache Hreads].
  rewrite Hfirst, Hsecond. cbn [fst snd].
  injection Hpart2 as Hc2 Hr2 Hl2.
  split; [by rewrite Hr2|]. split; [by rewrite Hc2|]. split.
  - rewrite Hl2, lookups_read_all. f_equal.
    rewrite (lookups_vault_part st st1 keys Hpart1).
    by rewrite drop_app_length.
  - destruct res as [D'|x], r1 as [l1|y1], r2 as [l2|y2]; try done.
    + by rewrite Hres1, Hres2.
    + by rewrite <- Hres1, <- Hres2.
Qed.

(** ** Construction *)


(** ** Resolution against the store *)

Lemma vault_view_consistent (st : state) (key : string) :
  cache_consistent st →
  vault_view st key = default ∅ (v_client_read (vault_path key)).
Proof.
  intros Hst. unfold vault_view.
  destruct (vault_cache st !! key) as [cached|] eqn:Hc; [|done].
  by apply Hst.
Qed.

(** X15. The cache never changes what a run answers: where it agrees with
    the store (in a new process, and after every [get_vars] from there),
    [get_vars] makes the lookups and answers the mapping of the pure fold
    over the records the store itself holds. *)
Theorem get_vars_from_store (entities : entities_arg) (st : state) :
  cache_consistent st →
  (∀ vars, vars ∈ host_vars (entities_of entities) → is_Some (heap st !! vars)) →
  let store := λ key, default ∅ (v_client_read (vault_path key)) in
  let resolved := resolve_all store (deref st) ∅ (entities_of entities) in
  ∃ r st',
    get_vars entities st = (r, st')
    ∧ lookups st' = lookups st ++ resolved.1
    ∧ match resolved.2, r with
      | Ok D', Ok l => deref st' l = D'
      | Raise x, Raise y => x = y
      | _, _ => False
      end.
Proof.
  intros Hst Hlive store resolved.
  destruct (get_vars_resolve_run entities st Hlive)
    as (r & st' & Hrun & Hpart & Hres).
  assert (resolve_all (vault_view st) (deref st) ∅ (entities_of entities)
          = resolved) as Heq.
  { apply resolve_all_ext; [|done].
    intros key. by apply vault_view_consistent. }
  rewrite Heq in Hpart, Hres.
  exists r, st'. split; [done|]. split; [|done].
  by apply lookups_vault_part.
Qed.

End plugin.

(** * The properties at concrete inputs *)

(** The end-to-end example of the specification: two groups and a host. *)
Example end_to_end :
  match get_vars reference_socket example_vault
          (EntityList [Group "all"; Group "webservers";
                       Host "hosta.example.com" 1%positive])
          initial_state with
  | (Ok r, st') =>
      deref st' r =
        {[ "x" := VInt 3; "y" := VInt 1;
           "ansible_port" := VInt 22; "ansible_connection" := VStr "ssh" ]}
      ∧ lookups st' =
          [("groups", "all"); ("groups", "webservers"); ("ssh/domains", "com");
           ("ssh/domains", "example.com"); ("ssh/hosts", "hosta.example.com")]
  | (Raise _, _) => False
  end.
Proof. vm_compute. split; reflexivity. Qed.

(** A host with neither port nor connection gets port 22 and "ssh"; a host
    with the port 5986 and no connection gets "winrm". *)
Example defaults_ssh :
  match connection_defaults 2%positive 1%positive initial_state with
  | (Ok _, st') =>
      deref st' 2%positive =
        {[ "ansible_port" := VInt 22; "ansible_connection" := VStr "ssh" ]}
  | (Raise _, _) => False
  end.
Proof. vm_compute. reflexivity. Qed.

Example defaults_winrm :
  match connection_defaults 2%positive 3%positive initial_state with
  | (Ok _, st') =>
      deref st' 2%positive =
        {[ "ansible_port" := VInt 5986; "ansible_connection" := VStr "winrm" ]}
  | (Raise _, _) => False
  end.
Proof. vm_compute. reflexivity. Qed.

(** The [hosts] folder of a dotted name is formed from the accumulator as the
    domain records left it: a domain record that sets [ansible_connection]
    moves the lookup of the host to the folder of that connection type. *)
Example domain_record_redirects_host_lookup :
  match _get_vars reference_socket redirecting_vault 2%positive
          (Host "hosta.example.com" 1%positive) initial_state with
  | (Ok _, st') =>
      lookups st' =
        [("ssh/domains", "com"); ("ssh/domains", "example.com");
         ("winrm/hosts", "hosta.example.com")]
  | (Raise _, _) => False
  end.
Proof. vm_compute. reflexivity. Qed.

(** Were the accumulator the host's own [vars], the defaults would be written
    into it: the frame property of [get_vars] rests on its new accumulator. *)
Example aliased_accumulator_is_written :
  heap (connection_defaults 1%positive 1%positive initial_state).2 !! 1%positive
  = Some {[ "ansible_port" := VInt 22; "ansible_connection" := VStr "ssh" ]}.
Proof. vm_compute. reflexivity. Qed.

(** C1 at "hosta.example.com" with connection type "ssh". *)
Lemma host_lookup_sequence_witness :
  _is_valid_ip_address reference_socket "hosta.example.com" = Ok false
  ∧ ∃ r st',
      _get_vars reference_socket example_vault 2%positive
        (Host "hosta.example.com" 1%positive) initial_state = (Ok r, st')
      ∧ lookups st' =
          [("ssh/domains", "com"); ("ssh/domains", "example.com");
           ("ssh/hosts", "hosta.example.com")].
Proof.
  split; [vm_compute; reflexivity|].
  destruct (host_lookup_sequence reference_socket example_vault initial_state
              2%positive 1%positive "hosta.example.com")
    as (r & st' & Hrun & Hlookups).
  - vm_compute. reflexivity.
  - intros suffix Hin. apply list_elem_of_In in Hin. simpl in Hin.
    destruct Hin as [<-|[<-|[]]]; vm_compute; reflexivity.
  - exists r, st'. split; [exact Hrun|]. rewrite Hlookups.
    vm_compute. reflexivity.
Defined.

(** C1 as stated fails at the host name "1.2.3.4": the name contains dots,
    and the only lookup is the [hosts] one. *)
Lemma dotted_ip_address_not_decomposed :
  str_count "." "1.2.3.4" = 3%nat
  ∧ match _get_vars reference_socket example_vault 2%positive
            (Host "1.2.3.4" 1%positive) initial_state with
    | (Ok _, st') =>
        lookups st' = [("ssh/hosts", "1.2.3.4")]
        ∧ lookups st' ≠ lookups initial_state ++ lookup_keys "ssh" "1.2.3.4"
    | (Raise _, _) => False
    end.
Proof. vm_compute. split; [reflexivity|]. split; [reflexivity|]. discriminate. Qed.

(** C4 at the key "groups/all" of a fresh cache. *)
Lemma cache_idempotence_witness :
  vault_cache initial_state !! vault_key "groups" "all" = None
  ∧ ∃ record st1 st2,
      _read_vault example_vault "groups" "all" initial_state = (Ok record, st1)
      ∧ _read_vault example_vault "groups" "all" st1 = (Ok record, st2)
      ∧ record = {[ "x" := VInt 1 ]}
      ∧ store_reads st1 = ["secret/ansible/groups/all"]
      ∧ store_reads st2 = ["secret/ansible/groups/all"].
Proof.
  split; [vm_compute; reflexivity|].
  destruct (cache_idempotence example_vault initial_state "groups" "all")
    as (record & st1 & st2 & Hrun1 & Hreads1 & _ & Hrun2 & Hreads2 & _).
  - vm_compute. reflexivity.
  - exists record, st1, st2. rewrite Hreads2, Hreads1.
    repeat (split; [done|]). split; [|done].
    rewrite read_vault_run in Hrun1. injection Hrun1 as <- _.
    vm_compute. reflexivity.
Defined.

(** C5 at the key "ssh/domains/com", for which the example Vault has no
    data. *)
Lemma store_miss_is_empty_witness :
  example_vault (vault_path (vault_key "ssh/domains" "com")) = None
  ∧ ∃ st',
      _read_vault example_vault "ssh/domains" "com" initial_state = (Ok ∅, st')
      ∧ vault_cache st' !! "ssh/domains/com" = Some ∅
      ∧ ∃ r st'',
          combine_vars 2%positive ∅ st' = (Ok r, st'')
          ∧ deref st'' r = deref initial_state 2%positive.
Proof.
  split; [vm_compute; reflexivity|].
  destruct (store_miss_is_empty example_vault initial_state "ssh/domains" "com"
              2%positive)
    as (st' & Hrun & Hcache & r & st'' & Hmerge & Hsame & _).
  - apply cache_consistent_empty. reflexivity.
  - vm_compute. reflexivity.
  - exists st'. split; [exact Hrun|]. split; [exact Hcache|].
    by exists r, st''.
Defined.

(** C6 at a batch whose second entity is a tuple. *)
Lemma unrecognised_entity_aborts_witness :
  ∃ st',
    get_vars reference_socket example_vault
      (EntityList [Group "all"; Other "tuple"; Host "hosta.example.com" 1%positive])
      initial_state =
    (Raise (AnsibleInternalError unrecognised (ObjType "tuple")), st').
Proof.
  destruct (unrecognised_entity_aborts reference_socket example_vault "tuple"
              (EntityList [Group "all"; Other "tuple";
                           Host "hosta.example.com" 1%positive])
              initial_state)
    as (_ & err & st' & Hrun & Herr).
  - simpl. apply list_elem_of_In. simpl. auto.
  - exists st'. rewrite Hrun.
    destruct Herr as (t & Ht & ->); [by eexists|].
    apply list_elem_of_In in Ht. simpl in Ht.
    destruct Ht as [Ht|[Ht|[Ht|[]]]]; [done| |done]. by injection Ht as <-.
Defined.

(** C7 as stated fails at the Host with the empty name: its one part is
    [""], and resolution succeeds with the lookup of ["ssh/hosts", ""]. *)
Lemma empty_host_name_resolves :
  str_split "." "" = [""]
  ∧ match get_vars reference_socket example_vault
            (EntityList [Host "" 1%positive]) initial_state with
    | (Ok _, st') => lookups st' = [("ssh/hosts", "")]
    | (Raise _, _) => False
    end.
Proof. vm_compute. split; reflexivity. Qed.

(** C8 at a batch with a group and a host whose [vars] is the dict at 3. *)
Lemma entity_vars_not_mutated_witness :
  heap (get_vars reference_socket example_vault
          (EntityList [Group "all"; Host "hosta.example.com" 3%positive])
          initial_state).2 !! 3%positive
  = Some {[ "ansible_port" := VInt 5986 ]}.
Proof.
  destruct (entity_vars_not_mutated reference_socket example_vault
              (EntityList [Group "all"; Host "hosta.example.com" 3%positive])
              initial_state "hosta.example.com" 3%positive) as [Hvars _].
  - simpl. apply list_elem_of_In. simpl. auto.
  - vm_compute. eauto.
  - rewrite Hvars. vm_compute. reflexivity.
Defined.

(** C9 at the host name "1.2.3.4". *)
Lemma ip_address_single_lookup_witness :
  _is_valid_ip_address reference_socket "1.2.3.4" = Ok true
  ∧ ∃ r st',
      _get_vars reference_socket example_vault 2%positive
        (Host "1.2.3.4" 1%positive) initial_state = (Ok r, st')
      ∧ lookups st' = [("ssh/hosts", "1.2.3.4")].
Proof.
  split; [vm_compute; reflexivity|].
  destruct (ip_address_single_lookup reference_socket example_vault
              initial_state 2%positive 1%positive "1.2.3.4")
    as (r & st' & Hrun & Hlookups).
  - vm_compute. reflexivity.
  - exists r, st'. split; [exact Hrun|]. rewrite Hlookups.
    vm_compute. reflexivity.
Defined.

(** X2 at "hosta.example.com" with a domain record that sets the connection
    type. *)
Lemma host_resolution_law_witness :
  _is_valid_ip_address reference_socket "hosta.example.com" = Ok false
  ∧ ∃ r st',
      _get_vars reference_socket redirecting_vault 2%positive
        (Host "hosta.example.com" 1%positive) initial_state = (Ok r, st')
      ∧ lookups st' =
          [("ssh/domains", "com"); ("ssh/domains", "example.com");
           ("winrm/hosts", "hosta.example.com")]
      ∧ deref st' r =
          {[ "ansible_port" := VInt 22; "ansible_connection" := VStr "winrm" ]}.
Proof.
  split; [vm_compute; reflexivity|].
  pose proof (host_resolution_law reference_socket redirecting_vault
                initial_state 2%positive 1%positive "hosta.example.com" false)
    as Hlaw.
  cbv zeta in Hlaw. destruct Hlaw as (r & st' & Hrun & Hlookups & Hdict).
  - vm_compute. reflexivity.
  - exists r, st'. split; [exact Hrun|]. rewrite Hlookups, Hdict.
    split; vm_compute; reflexivity.
Defined.

(** X3 at "hosta.example.com": the host record's [x] is in the answer. *)
Lemma host_record_wins_witness :
  ∃ r st',
    _get_vars reference_socket example_vault 2%positive
      (Host "hosta.example.com" 1%positive) initial_state = (Ok r, st')
    ∧ deref st' r !! "x" = Some (VInt 3).
Proof.
  destruct (host_record_wins reference_socket example_vault initial_state
              2%positive 1%positive "hosta.example.com" false)
    as (r & st' & folder & Hrun & Hlast & Hwins).
  - vm_compute. reflexivity.
  - exists r, st'. split; [exact Hrun|]. apply Hwins.
    vm_compute in Hrun. injection Hrun as _ <-.
    vm_compute in Hlast. injection Hlast as <-.
    vm_compute. reflexivity.
Defined.

(** X4 at "hosta.example.com": three lookups. *)
Lemma host_lookup_count_witness :
  ∃ r st',
    _get_vars reference_socket example_vault 2%positive
      (Host "hosta.example.com" 1%positive) initial_state = (Ok r, st')
    ∧ length (lookups st') = 3%nat.
Proof.
  destruct (host_lookup_count reference_socket example_vault initial_state
              2%positive 1%positive "hosta.example.com" false)
    as (r & st' & Hrun & Hcount).
  - vm_compute. reflexivity.
  - exists r, st'. split; [exact Hrun|]. rewrite Hcount.
    vm_compute. reflexivity.
Defined.


(** X6 at "hosta.example.com" on a platform without [inet_pton]. *)
Lemma no_inet_pton_raises_witness :
  (_get_vars legacy_socket example_vault 2%positive
     (Host "hosta.example.com" 1%positive) initial_state).1
  = Raise (AttributeError "inet_pton").
Proof.
  destruct (no_inet_pton_raises legacy_socket example_vault initial_state
              2%positive 1%positive "hosta.example.com")
    as (_ & Hrun & _).
  - reflexivity.
  - left. vm_compute. reflexivity.
  - by rewrite Hrun.
Defined.


(** X9: the record cached for "groups/all" survives the next batch. *)
Lemma cache_entries_kept_witness :
  vault_cache
    (get_vars reference_socket example_vault
       (EntityList [Group "webservers"; Host "hosta.example.com" 1%positive])
       (_read_vault example_vault "groups" "all" initial_state).2).2
    !! "groups/all"
  = Some {[ "x" := VInt 1 ]}.
Proof.
  apply cache_entries_kept. vm_compute. reflexivity.
Defined.

(** X10 from a new process. *)
Lemma store_paths_read_once_witness :
  NoDup
    (store_reads
       (get_vars reference_socket example_vault
          (EntityList [Group "all"; Group "all";
                       Host "hosta.example.com" 1%positive;
                       Host "hostb.example.com" 1%positive])
          initial_state).2).
Proof.
  apply store_paths_read_once. split.
  - simpl. constructor.
  - simpl. intros path Hin. apply elem_of_nil in Hin. destruct Hin.
Defined.

(** X12 and X13 at the end-to-end batch. *)
Lemma get_vars_is_resolve_all_witness :
  ∃ r st',
    get_vars reference_socket example_vault
      (EntityList [Group "all"; Group "webservers";
                   Host "hosta.example.com" 1%positive])
      initial_state = (Ok r, st')
    ∧ deref st' r =
        {[ "x" := VInt 3; "y" := VInt 1;
           "ansible_port" := VInt 22; "ansible_connection" := VStr "ssh" ]}.
Proof.
  pose proof (get_vars_is_resolve_all reference_socket example_vault
                (EntityList [Group "all"; Group "webservers";
                             Host "hosta.example.com" 1%positive])
                initial_state) as Hfold.
  cbv zeta in Hfold. destruct Hfold as (r & st' & Hrun & _ & Hres).
  - intros vars Hin. apply list_elem_of_In in Hin. simpl in Hin.
    destruct Hin as [<-|[]]. vm_compute. eauto.
  - set (res := snd (resolve_all _ _ _ _ _)) in Hres.
    vm_compute in (value of res). subst res. cbv iota in Hres.
    destruct r as [l|]; [|destruct Hres].
    exists l, st'. split; [exact Hrun|]. rewrite Hres. vm_compute. reflexivity.
Defined.

Lemma get_vars_again_witness :
  let batch :=
    EntityList [Group "all"; Group "webservers";
                Host "hosta.example.com" 1%positive] in
  let first := get_vars reference_socket example_vault batch initial_state in
  store_reads (get_vars reference_socket example_vault batch first.2).2
  = store_reads first.2.
Proof.
  intros batch first.
  pose proof (get_vars_again reference_socket example_vault batch
                initial_state) as Hagain.
  cbv zeta in Hagain. destruct Hagain as (Hreads & _).
  - intros vars Hin. apply list_elem_of_In in Hin. simpl in Hin.
    destruct Hin as [<-|[]]. vm_compute. eauto.
  - exact Hreads.
Defined.


(** X15 at the end-to-end batch in a new process. *)
Lemma get_vars_from_store_witness :
  ∃ r st',
    get_vars reference_socket example_vault
      (EntityList [Group "all"; Group "webservers";
                   Host "hosta.example.com" 1%positive])
      initial_state = (Ok r, st')
    ∧ lookups st' =
        [("groups", "all"); ("groups", "webservers"); ("ssh/domains", "com");
         ("ssh/domains", "example.com"); ("ssh/hosts", "hosta.example.com")].
Proof.
  pose proof (get_vars_from_store reference_socket example_vault
                (EntityList [Group "all"; Group "webservers";
                             Host "hosta.example.com" 1%positive])
                initial_state) as Hfold.
  cbv zeta in Hfold. destruct Hfold as (r & st' & Hrun & Hlookups & Hres).
  - apply cache_consistent_empty. reflexivity.
  - intros vars Hin. apply list_elem_of_In in Hin. simpl in Hin.
    destruct Hin as [<-|[]]. vm_compute. eauto.
  - set (res := snd (resolve_all _ _ _ _ _)) in Hres.
    vm_compute in (value of res). subst res. cbv iota in Hres.
    destruct r as [l|]; [|destruct Hres].
    exists l, st'. split; [exact Hrun|]. rewrite Hlookups.
    vm_compute. reflexivity.
Defined.
